(** * daily-arXiv-ai-enhanced: the enrichment pipeline of [ai/enhance.py]

    A shallow embedding of [ai/enhance.py] and the properties of its
    configuration loading, output-path derivation, deduplication, per-item
    invoker ([process_single_item]) and scheduler ([process_all_items]).

    Conventions of the embedding:
    - a Python [str] is a [string]; a character is its code point below 256;
    - a JSON value is a [json]; a record (a Python [dict] with string keys)
      is a [gmap string json];
    - Python objects that are mutated in place live in a heap indexed by
      locations; a list of records is a list of locations, so that aliasing
      between [data], [item] and [processed_data] is explicit;
    - exceptions, the pacing sleeps and the lines printed on [sys.stderr]
      are threaded through a state-and-exception monad;
    - what the program takes from outside is a parameter: the decoder
      [json.loads], the answers of the service ([Chain]), the order in
      which the workers finish, the room that the system clock leaves to
      [time.sleep] ([Clock]) and the resolution of paths to files
      ([FileSystem]). *)

From stdpp Require Import gmap strings list fin_maps.
From Stdlib Require Import ZArith Ascii.

Set Warnings "-register-all,-clear-no-such-hyp".
Local Open Scope Z_scope.

(** ** Python string primitives *)

Module PyStr.

(** [str.isspace] on one character: the code points below 256 that Python
    treats as whitespace. *)
Definition isspace (c : ascii) : bool :=
  let n := N_of_ascii c in
  (((9 <=? n) && (n <=? 13)) || ((28 <=? n) && (n <=? 32))
   || (n =? 133) || (n =? 160))%N.

Fixpoint lstrip (s : string) : string :=
  match s with
  | EmptyString => EmptyString
  | String c s' => if isspace c then lstrip s' else s
  end.

Fixpoint rstrip (s : string) : string :=
  match s with
  | EmptyString => EmptyString
  | String c s' =>
      match rstrip s' with
      | EmptyString => if isspace c then EmptyString else String c EmptyString
      | t => String c t
      end
  end.

(** [s.strip()] *)
Definition strip (s : string) : string := rstrip (lstrip s).

Fixpoint drop (n : nat) (s : string) : string :=
  match n, s with
  | O, _ => s
  | S _, EmptyString => EmptyString
  | S k, String _ s' => drop k s'
  end.

(** The text that follows the first occurrence of [sep] in [s]:
    [s.split(sep, 1)[1]] when [sep] occurs, [None] when it does not. *)
Fixpoint after (sep s : string) : option string :=
  if String.prefix sep s then Some (drop (String.length sep) s)
  else match s with
       | EmptyString => None
       | String _ s' => after sep s'
       end.

(** [sep in s] *)
Definition contains (sep s : string) : bool :=
  match after sep s with Some _ => true | None => false end.

(** [s.split(sep)[0]]: the text before the first occurrence of [sep], the
    whole of [s] when [sep] does not occur. *)
Fixpoint before (sep s : string) : string :=
  if String.prefix sep s then EmptyString
  else match s with
       | EmptyString => EmptyString
       | String c s' => String c (before sep s')
       end.

(** [s.replace(old, new)] for a non-empty [old]: occurrences are found
    from the left and do not overlap.  [skip] counts the characters of a
    matched occurrence that are still to be passed over. *)
Fixpoint replace_from (old new : string) (skip : nat) (s : string) : string :=
  match s with
  | EmptyString => EmptyString
  | String c s' =>
      match skip with
      | S k => replace_from old new k s'
      | O =>
          if String.prefix old s
          then new +:+ replace_from old new (String.length old - 1) s'
          else String c (replace_from old new 0 s')
      end
  end.

Definition replace (old new s : string) : string := replace_from old new 0 s.

Definition is_digit (c : ascii) : bool :=
  let n := N_of_ascii c in ((48 <=? n) && (n <=? 57))%N.

Definition digit_value (c : ascii) : Z := Z.of_N (N_of_ascii c) - 48.

(** The digit part of an integer literal: decimal digits, where a single
    underscore may stand between two digits. *)
Fixpoint digits (acc : Z) (after_digit : bool) (s : string) : option Z :=
  match s with
  | EmptyString => if after_digit then Some acc else None
  | String c s' =>
      if is_digit c then digits (10 * acc + digit_value c) true s'
      else if Ascii.eqb c "_"
           then (if after_digit then digits acc false s' else None)
           else None
  end.

(** The whitespace that [int] drops around a literal.  It is narrower
    than [str.isspace]: the separators 28 to 31 of ASCII are not in it. *)
Definition int_space (c : ascii) : bool :=
  let n := N_of_ascii c in
  (((9 <=? n) && (n <=? 13)) || (n =? 32) || (n =? 133) || (n =? 160))%N.

Fixpoint int_lstrip (s : string) : string :=
  match s with
  | EmptyString => EmptyString
  | String c s' => if int_space c then int_lstrip s' else s
  end.

Fixpoint int_rstrip (s : string) : string :=
  match s with
  | EmptyString => EmptyString
  | String c s' =>
      match int_rstrip s' with
      | EmptyString => if int_space c then EmptyString else String c EmptyString
      | t => String c t
      end
  end.

Fixpoint count_digits (s : string) : Z :=
  match s with
  | EmptyString => 0
  | String c s' => (if is_digit c then 1 else 0) + count_digits s'
  end.

(** [sys.get_int_max_str_digits()], as the interpreter sets it. *)
Definition int_max_str_digits : Z := 4300.

(** [int(s)] for a string [s]: surrounding whitespace is dropped, one
    sign is allowed, and a literal of more than [int_max_str_digits]
    digits is refused; [None] stands for [ValueError]. *)
Definition int (s : string) : option Z :=
  let t := int_rstrip (int_lstrip s) in
  if int_max_str_digits <? count_digits t then None
  else match t with
       | String "-" u => Z.opp <$> digits 0 false u
       | String "+" u => digits 0 false u
       | u => digits 0 false u
       end.

End PyStr.

(** ** Data model *)

(** JSON values as [json.loads] produces them ([dict] keys are strings). *)
Inductive json : Type :=
  | JNull
  | JBool (b : bool)
  | JInt (z : Z)
  | JStr (s : string)
  | JList (l : list json)
  | JDict (m : gmap string json).

(** A record is a Python [dict]; one line of the input file. *)
Abbreviation record := (gmap string json).

(** Modelled from the spec: the class [Structure] of [structure.py] (not
    part of the sources at hand), a fixed-shape object with the five string
    fields [tldr], [motivation], [method], [result] and [conclusion]. *)
Record Structure : Type := mkStructure {
  tldr : string;
  motivation : string;
  method : string;
  result : string;
  conclusion : string
}.

(** [response.model_dump()] *)
Definition model_dump (r : Structure) : json :=
  JDict (<["tldr" := JStr (tldr r)]>
        (<["motivation" := JStr (motivation r)]>
        (<["method" := JStr (method r)]>
        (<["result" := JStr (result r)]>
        (<["conclusion" := JStr (conclusion r)]> ∅))))).

(** The exceptions that occur in the program; all of them are subclasses of
    Python's [Exception]. *)
Inductive exn : Type :=
  | OutputParserException (msg : string)
  | KeyError (key : string)
  | ValueError (msg : string)
  | TypeError (msg : string)
  | JSONDecodeError (msg : string)
  | OverflowError (msg : string)
  | FileNotFoundError (path : string)
  | OSError (msg : string)
  | OtherException (msg : string).

(** [str(e)]; a [KeyError] prints the [repr] of the missing key. *)
Definition exn_str (e : exn) : string :=
  match e with
  | KeyError k => "'" +:+ k +:+ "'"
  | FileNotFoundError path =>
      "[Errno 2] No such file or directory: '" +:+ path +:+ "'"
  | OutputParserException m | ValueError m | TypeError m
  | JSONDecodeError m | OverflowError m | OSError m | OtherException m => m
  end.

Inductive outcome (A : Type) : Type :=
  | Ok (a : A)
  | Raise (e : exn).
Arguments Ok {A} a.
Arguments Raise {A} e.


(** What the program prints on [sys.stderr], one constructor per [print];
    the formatted values are kept as arguments. *)
Inductive diag : Type :=
  | WarnInvalidDelay (value : Z)
  | FailedToFixJSON (id : json) (json_e : exn) (json_str : string)
  | UnexpectedError (id : json) (e : exn)
  | ItemException (idx : nat) (e : exn)
  | ConnectTo (model_name : string)
  | RemovedExisting (path : string)
  | OpenFile (path : string).

(** Heap locations of the record objects. *)
Abbreviation loc := nat.

(** The state of a run: the record objects, the lengths of the sleeps made
    so far, the lines printed on [sys.stderr], and the files.  The files of
    interest hold newline-delimited JSON; a file is the list of the values
    decoded from its lines.  [files] is indexed by the files themselves,
    not by the paths that lead to them: see [realpath] below. *)
Record world : Type := World {
  heap : gmap nat (gmap string json);
  slept : list Z;
  stderr : list diag;
  files : gmap string (list json)
}.

(** ** The state-and-exception monad *)

Definition M (A : Type) : Type := world → outcome A * world.

Definition ret {A} (a : A) : M A := λ w, (Ok a, w).

Definition raise {A} (e : exn) : M A := λ w, (Raise e, w).

Definition bind {A B} (m : M A) (k : A → M B) : M B :=
  λ w, match m w with
       | (Ok a, w') => k a w'
       | (Raise e, w') => (Raise e, w')
       end.

#[global] Instance M_ret : MRet M := @ret.
#[global] Instance M_bind : MBind M := λ A B k m, bind m k.

(** [try: body except Exception as e: handler e else: orelse a]: an
    exception of [body] runs [handler]; an exception of [handler] or of
    [orelse] propagates. *)
Definition try_except {A B} (body : M A) (handler : exn → M B)
    (orelse : A → M B) : M B :=
  λ w, match body w with
       | (Ok a, w') => orelse a w'
       | (Raise e, w') => handler e w'
       end.

(** [obj[key]] on the record at [l]. *)
Definition getitem (l : loc) (key : string) : M json :=
  λ w, match (heap w !!! l) !! key with
       | Some v => (Ok v, w)
       | None => (Raise (KeyError key), w)
       end.

(** [obj.get(key, d)] *)
Definition get (l : loc) (key : string) (d : json) : M json :=
  λ w, (Ok (default d ((heap w !!! l) !! key)), w).

(** [obj[key] = v]: the record at [l] is updated in place. *)
Definition setitem (l : loc) (key : string) (v : json) : M unit :=
  λ w, (Ok tt, World (<[l := <[key := v]> (heap w !!! l)]> (heap w))
                     (slept w) (stderr w) (files w)).

(** The platform under the interpreter.  [time.sleep] asks the system to
    wake the thread at the present time plus the length, and the system
    refuses when that is beyond the range of its clock.  [sleep_room] is
    the longest sleep that the system accepts; it is a parameter, taken to
    be the same for every sleep of a run. *)
Class Clock : Type := sleep_room : Z.

(** The longest length in seconds that fits the interpreter's own clock, a
    signed 64-bit count of nanoseconds. *)
Definition time_max : Z := 9223372036.

(** The exception of [time.sleep(secs)] for an integer [secs], [None]
    when the thread sleeps.  The length is first converted to the clock of
    the interpreter, then tested for its sign, then handed to the system. *)
Definition sleep_error {clock : Clock} (secs : Z) : option exn :=
  if (secs <? - time_max) || (time_max <? secs)
  then Some (OverflowError "timestamp too large to convert to C _PyTime_t")
  else if secs <? 0
  then Some (ValueError "sleep length must be non-negative")
  else if sleep_room <? secs
  then Some (OSError "[Errno 22] Invalid argument")
  else None.

(** [time.sleep(secs)] for an integer [secs]. *)
Definition sleep {clock : Clock} (secs : Z) : M unit :=
  λ w, match sleep_error secs with
       | Some e => (Raise e, w)
       | None =>
           (Ok tt, World (heap w) (slept w ++ [secs]) (stderr w) (files w))
       end.

(** The longest sleep that [time.sleep] makes. *)
Definition sleep_max {clock : Clock} : Z := Z.min time_max sleep_room.

(** [print(..., file=sys.stderr)] *)
Definition print_stderr (d : diag) : M unit :=
  λ w, (Ok tt, World (heap w) (slept w) (stderr w ++ [d]) (files w)).

(** ** Configuration: [API_DELAY_SECONDS] (lines 28-33) *)

(** [int(os.environ.get("API_DELAY_SECONDS", 5))], then the range check.
    [int] of the default [5] is [5]; [int] of a string that is no integer
    literal raises [ValueError] at line 28, before the check of line 31 is
    reached.  The result of [int] is always an [int], so of the two tests
    of line 31 only [API_DELAY_SECONDS < 0] can hold. *)
Definition load_api_delay (environ : gmap string string)
    : outcome Z * list diag :=
  match environ !! "API_DELAY_SECONDS" with
  | None => (Ok 5, [])
  | Some s =>
      match PyStr.int s with
      | None => (Raise (ValueError s), [])
      | Some v =>
          if v <? 0 then (Ok 5, [WarnInvalidDelay v]) else (Ok v, [])
      end
  end.

(** ** The output path (line 159) *)

(** [args.data.replace('.jsonl', f'_AI_enhanced_{language}.jsonl')] *)
Definition target_file (data language : string) : string :=
  PyStr.replace ".jsonl" ("_AI_enhanced_" +:+ language +:+ ".jsonl") data.

(** ** The rate-limited invoker: [process_single_item] (lines 48-113) *)

(** [json.loads], from Python's standard library, is taken as given: a
    function from the text to the decoded value or to the exception. *)
Class JsonDecoder : Type := json_loads : string → outcome json.

(** The behaviour of [chain.invoke({"language": ..., "content": ...})]:
    the structured answer of the service, or the exception raised. *)
Definition Chain : Type := string → json → outcome Structure.

Definition lift {A} (o : outcome A) : M A := λ w, (o, w).

Definition marker : string := "Function Structure arguments:".
Definition trailer : string := "are not valid JSON".

(** Line 65, [error_msg.split(marker, 1)[1].strip().split(trailer)[0].strip()].
    It is evaluated under the test [marker in error_msg] of line 62, where
    the first [split] has a second element. *)
Definition extract_json_str (error_msg : string) : string :=
  PyStr.strip (PyStr.before trailer
    (PyStr.strip (default EmptyString (PyStr.after marker error_msg)))).

(** Line 67, [json_str.replace('\\', '\\\\')]: every backslash is doubled. *)
Definition backslash : string := String (ascii_of_N 92) EmptyString.

Definition escape_backslashes (json_str : string) : string :=
  PyStr.replace backslash (backslash +:+ backslash) json_str.

Definition sentinel (t mo me re co : string) : json :=
  JDict (<["tldr" := JStr t]>
        (<["motivation" := JStr mo]>
        (<["method" := JStr me]>
        (<["result" := JStr re]>
        (<["conclusion" := JStr co]> ∅))))).

(** Lines 79-85. *)
Definition error_sentinel : json :=
  sentinel "Error" "Error" "Error" "Error" "Error".

(** Lines 90-96. *)
Definition unexpected_sentinel (e : exn) : json :=
  sentinel "Unexpected Error" (exn_str e) "N/A" "N/A" "N/A".

Section Invoker.
Context `{!JsonDecoder} {clock : Clock}.
Variable API_DELAY_SECONDS : Z.

(** Lines 62-76: the repair attempt.  [Some item] is the [return item] of
    line 74; [None] means that control goes on to line 79. *)
Definition repair (item : loc) (error_msg : string) : M (option loc) :=
  if PyStr.contains marker error_msg then
    let json_str := escape_backslashes (extract_json_str error_msg) in
    try_except
      (fixed_data ← lift (json_loads json_str);
       setitem item "AI" fixed_data;;
       sleep API_DELAY_SECONDS;;
       mret (Some item))
      (λ json_e,
         id ← getitem item "id";
         print_stderr (FailedToFixJSON id json_e json_str);;
         mret None)
      mret
  else mret None.

(** The function returns at line 74 ([Some]) or at line 113 ([None]). *)
Definition process_single_item (chain : Chain) (item : loc)
    (language : string) : M loc :=
  returned ← try_except
    (content ← getitem item "summary";
     response ← lift (chain language content);
     setitem item "AI" (model_dump response);;
     sleep API_DELAY_SECONDS)
    (λ e,
       match e with
       | OutputParserException error_msg =>
           fixed ← repair item error_msg;
           match fixed with
           | Some r => mret (Some r)
           | None =>
               setitem item "AI" error_sentinel;;
               sleep API_DELAY_SECONDS;;
               mret None
           end
       | _ =>
           id ← get item "id" (JStr "unknown");
           print_stderr (UnexpectedError id e);;
           setitem item "AI" (unexpected_sentinel e);;
           sleep API_DELAY_SECONDS;;
           mret None
       end)
    (λ _, sleep API_DELAY_SECONDS;; mret None);
  match returned with
  | Some r => mret r
  | None => mret item
  end.

End Invoker.

(** ** Deduplication (lines 171-178) *)

(** The hashable values among the JSON values, up to Python's equality:
    [True == 1] and [False == 0], so a Boolean and an integer can be the
    same member of a [set]. *)
Inductive hkey : Type :=
  | HNone
  | HInt (z : Z)
  | HStr (s : string).

#[global] Instance hkey_eq_dec : EqDecision hkey.
Proof. solve_decision. Defined.

#[global] Instance hkey_countable : Countable hkey.
Proof.
  refine (inj_countable'
    (λ k, match k with
          | HNone => inl ()
          | HInt z => inr (inl z)
          | HStr s => inr (inr s)
          end)
    (λ x, match x with
          | inl _ => HNone
          | inr (inl z) => HInt z
          | inr (inr s) => HStr s
          end) _).
  by intros [].
Defined.

(** The member of [seen_ids] that a value is; a [list] or a [dict] is
    unhashable, [id in seen_ids] then raises [TypeError]. *)
Definition hash_key (v : json) : outcome hkey :=
  match v with
  | JNull => Ok HNone
  | JBool b => Ok (HInt (if b then 1 else 0))
  | JInt z => Ok (HInt z)
  | JStr s => Ok (HStr s)
  | JList _ => Raise (TypeError "unhashable type: 'list'")
  | JDict _ => Raise (TypeError "unhashable type: 'dict'")
  end.

(** A member of the list [data] that lines 165-168 build: the object of a
    line that holds a JSON object, or the value of any other line (which
    is never a [JDict]). *)
Inductive pyval : Type :=
  | PObj (l : loc)
  | PVal (v : json).

(** The [TypeError] of [v['id']] on a value that is no [dict]. *)
Definition subscript_error (v : json) : exn :=
  TypeError
    match v with
    | JNull => "'NoneType' object is not subscriptable"
    | JBool _ => "'bool' object is not subscriptable"
    | JInt _ => "'int' object is not subscriptable"
    | JStr _ => "string indices must be integers, not 'str'"
    | JList _ | JDict _ => "list indices must be integers or slices, not str"
    end.

(** The loop of lines 173-176 over the rest of [data]. *)
Fixpoint dedup_loop (data : list pyval) (seen_ids : gset hkey)
    (unique_data : list loc) : M (list loc) :=
  match data with
  | [] => mret unique_data
  | PVal v :: _ => raise (subscript_error v)
  | PObj item :: data' =>
      id ← getitem item "id";
      k ← lift (hash_key id);
      if decide (k ∈ seen_ids)
      then dedup_loop data' seen_ids unique_data
      else dedup_loop data' ({[k]} ∪ seen_ids) (unique_data ++ [item])
  end.

(** The loop on a list of record objects. *)
Definition deduplicate (data : list loc) : M (list loc) :=
  dedup_loop (PObj <$> data) ∅ [].

(** ** The file system *)

(** The operating system resolves a path to a file: two paths can lead to
    one file, and a path leads to none when a directory on its way is
    missing or is no directory.  The directories do not change during a
    run, so the resolution is a parameter of the run.  [realpath path] is
    the file that [path] leads to, present or not, given by the name under
    which [files] keeps its content; or it is the exception that [open]
    raises for a path that leads nowhere ([FileNotFoundError],
    [NotADirectoryError]).  The files are regular files that the process
    may read, write and remove. *)
Class FileSystem : Type := realpath : string → outcome string.

(** [os.path.exists(path)] *)
Definition path_exists {fs : FileSystem} (path : string) (w : world) : bool :=
  match realpath path with
  | Ok name => bool_decide (is_Some (files w !! name))
  | Raise _ => false
  end.

(** ** The scheduler: [process_all_items] (lines 115-151) *)

(** A future holds the value returned by its task or the exception that
    the task raised. *)
Definition run_future {A} (task : M A) : M (outcome A) :=
  λ w, let '(o, w') := task w in (Ok o, w').

Section Scheduler.
Context `{!JsonDecoder} {clock : Clock} {fs : FileSystem}.
Variable API_DELAY_SECONDS : Z.

(** The service may answer the same text differently from one call to the
    next: [chain idx] is the behaviour of the shared chain at the call
    made by the task submitted for index [idx]. *)
Variable chain : nat → Chain.

(** The pool at work.  [order] lists the indices of the tasks in the order
    in which they complete; a task is run in one piece when its turn
    comes (tasks on different records touch different objects, see
    [process_single_item_frame]).  The result is the dictionary of line
    131, from the index to the finished future. *)
Fixpoint run_workers (data : list loc) (language : string)
    (order : list nat) (futures : gmap nat (outcome loc))
    : M (gmap nat (outcome loc)) :=
  match order with
  | [] => mret futures
  | idx :: order' =>
      match data !! idx with
      | Some item =>
          fut ← run_future
            (process_single_item API_DELAY_SECONDS (chain idx) item language);
          run_workers data language order' (<[idx := fut]> futures)
      | None => run_workers data language order' futures
      end
  end.

(** The loop of lines 137-149 over the futures as they complete.  A slot
    of [processed_data] is [None] (Python's [None]) or holds a record. *)
Fixpoint collect (data : list loc) (futures : gmap nat (outcome loc))
    (order : list nat) (processed_data : list (option loc))
    : M (list (option loc)) :=
  match order with
  | [] => mret processed_data
  | idx :: order' =>
      match futures !! idx with
      | Some (Ok result) =>
          collect data futures order' (<[idx := Some result]> processed_data)
      | Some (Raise e) =>
          print_stderr (ItemException idx e);;
          collect data futures order' (<[idx := data !! idx]> processed_data)
      | None => collect data futures order' processed_data
      end
  end.

(** [ThreadPoolExecutor(max_workers=...)] raises [ValueError] unless
    [max_workers] is positive.  Leaving the [with] block waits for every
    task, so all futures are finished when the function returns. *)
Definition process_all_items (data : list loc) (model_name language : string)
    (max_workers : Z) (order : list nat) : M (list (option loc)) :=
  print_stderr (ConnectTo model_name);;
  let processed_data := replicate (length data) None in
  if max_workers <=? 0
  then raise (ValueError "max_workers must be greater than 0")
  else
    futures ← run_workers data language order ∅;
    collect data futures order processed_data.

(** ** The driver: [main] (lines 153-192) *)

(** A fresh object for a decoded line. *)
Definition alloc (r : gmap string json) : M loc :=
  λ w, let l := fresh (dom (heap w)) in
       (Ok l, World (<[l := r]> (heap w)) (slept w) (stderr w) (files w)).

(** The loop of lines 167-168: every line is decoded and appended; a line
    that holds an object gives a new object. *)
Fixpoint alloc_all (lines : list json) : M (list pyval) :=
  match lines with
  | [] => mret []
  | JDict r :: lines' =>
      l ← alloc r;
      ls ← alloc_all lines';
      mret (PObj l :: ls)
  | v :: lines' =>
      ls ← alloc_all lines';
      mret (PVal v :: ls)
  end.

(** Lines 165-168. *)
Definition read_jsonl (path : string) : M (list pyval) :=
  λ w, match realpath path with
       | Ok name =>
           match files w !! name with
           | Some lines => alloc_all lines w
           | None => (Raise (FileNotFoundError path), w)
           end
       | Raise e => (Raise e, w)
       end.

(** Lines 160-162. *)
Definition remove_if_exists (path : string) : M unit :=
  λ w, match realpath path with
       | Ok name =>
           match files w !! name with
           | Some _ =>
               print_stderr (RemovedExisting path)
                 (World (heap w) (slept w) (stderr w) (delete name (files w)))
           | None => (Ok tt, w)
           end
       | Raise _ => (Ok tt, w)
       end.

(** [json.dumps] of a slot: the record as it is at that time, [null] for
    Python's [None]. *)
Definition dump_slot (h : gmap nat (gmap string json)) (slot : option loc)
    : json :=
  match slot with
  | Some l => JDict (h !!! l)
  | None => JNull
  end.

(** Lines 190-192.  [open(path, "w")] creates the file or empties it, and
    raises when the path leads nowhere. *)
Definition write_jsonl (path : string) (processed_data : list (option loc))
    : M unit :=
  λ w, match realpath path with
       | Ok name =>
           (Ok tt,
            World (heap w) (slept w) (stderr w)
              (<[name := dump_slot (heap w) <$> processed_data]> (files w)))
       | Raise e => (Raise e, w)
       end.

Definition main (data_path : string) (max_workers : Z)
    (environ : gmap string string) (order : list nat) : M unit :=
  let model_name := default "deepseek-chat" (environ !! "MODEL_NAME") in
  let language := default "Chinese" (environ !! "LANGUAGE") in
  let target := target_file data_path language in
  remove_if_exists target;;
  data ← read_jsonl data_path;
  unique_data ← dedup_loop data ∅ [];
  print_stderr (OpenFile data_path);;
  processed_data ← process_all_items unique_data model_name language
                     max_workers order;
  write_jsonl target processed_data.

End Scheduler.

(** ** A decoder for the examples *)

(** [json.loads] on the five texts below; the examples use it on these
    texts and on texts that are not JSON. *)
Definition constants_loads : JsonDecoder :=
  λ s, if String.eqb s "{}" then Ok (JDict ∅)
       else if String.eqb s "[]" then Ok (JList [])
       else if String.eqb s "null" then Ok JNull
       else if String.eqb s "true" then Ok (JBool true)
       else if String.eqb s "false" then Ok (JBool false)
       else Raise (JSONDecodeError "Expecting value").

(** ** Values for the examples of the configuration *)

(** The literal made of [n] times the digit 1. *)
Fixpoint ones (n : nat) : string :=
  match n with
  | O => EmptyString
  | S k => String "1" (ones k)
  end.

(** ** A platform for the examples *)

(** A system whose clock leaves room for a sleep of a year. *)
Definition year_clock : Clock := 31536000.

(** A file system in which every path leads to a file of its own. *)
Definition flat_fs : FileSystem := λ path, Ok path.

(** ** Vocabulary of the statements *)

Definition is_parse_failure (e : exn) : bool :=
  match e with OutputParserException _ => true | _ => false end.

(** The world after [item['AI'] = ai], [n] sleeps and the prints [ds]. *)
Definition annotated (w : world) (item : loc) (ai : json) (zs : list Z)
    (ds : list diag) : world :=
  World (<[item := <["AI" := ai]> (heap w !!! item)]> (heap w))
        (slept w ++ zs) (stderr w ++ ds) (files w).


(** ** Values for the examples *)

Definition example_record : gmap string json :=
  {[ "id" := JStr "2405.00001"; "summary" := JStr "We study pacing." ]}.

Definition example_world : world :=
  World {[ 0%nat := example_record ]} [] [] ∅.

Definition answering_chain : Chain :=
  λ _ _, Ok (mkStructure "short" "why" "how" "what" "so").

Definition failing_chain (e : exn) : Chain := λ _ _, Raise e.

Definition repairable_msg : string :=
  "Function Structure arguments:  {}  are not valid JSON. Received error".

Definition unrepairable_msg : string :=
  "Function Structure arguments: {oops are not valid JSON".

(** The value under which the record at [l] is looked up in [seen_ids];
    [None] when the record has no [id] or an unhashable one. *)
Definition id_key (h : gmap nat (gmap string json)) (l : loc) : option hkey :=
  match (h !!! l) !! "id" with
  | Some v => match hash_key v with Ok k => Some k | Raise _ => None end
  | None => None
  end.

(** In the words of the specification: the ordered subsequence that retains
    only the first record for each distinct [id].  A record is retained
    when no record before it, retained or not, has its [id]; [earlier] are
    the [id]s of all the records before [data]. *)
Fixpoint first_occurrences_from (key : loc → hkey) (earlier : list hkey)
    (data : list loc) : list loc :=
  match data with
  | [] => []
  | item :: data' =>
      if decide (key item ∈ earlier)
      then first_occurrences_from key (earlier ++ [key item]) data'
      else item :: first_occurrences_from key (earlier ++ [key item]) data'
  end.

Definition first_occurrences (key : loc → hkey) (data : list loc) : list loc :=
  first_occurrences_from key [] data.

(** The three records of the example of the specification, [id]s 1, 1, 2. *)
Definition duplicates_world : world :=
  World {[ 0%nat := {[ "id" := JInt 1; "summary" := JStr "A" ]};
           1%nat := {[ "id" := JInt 1; "summary" := JStr "B" ]};
           2%nat := {[ "id" := JInt 2; "summary" := JStr "C" ]} ]} [] [] ∅.

Definition duplicates_key (l : loc) : hkey :=
  match l with 2%nat => HInt 2 | _ => HInt 1 end.

(** [m] leaves the object at [l] as it is. *)
Definition frames {A} (l : loc) (m : M A) : Prop :=
  ∀ w, heap (m w).2 !! l = heap w !! l.

(** What [m] returns and what it makes of the record at [item] depend on
    the record at [item] only. *)
Definition local_at {A} (item : loc) (m : M A) : Prop :=
  ∀ w w2, heap w !!! item = heap w2 !!! item →
    (m w).1 = (m w2).1 ∧ heap (m w).2 !!! item = heap (m w2).2 !!! item.

(** Every value that [m] returns satisfies [P]. *)
Definition returns_only {A} (P : A → Prop) (m : M A) : Prop :=
  ∀ w a, (m w).1 = Ok a → P a.

(** The assignments [processed_data[idx] = ...] made by the loop of lines
    137-149, as the list of their indices in the order in which they are
    made: one for each future that [as_completed] yields. *)
Definition slot_writes (futures : gmap nat (outcome loc)) (order : list nat)
    : list nat :=
  filter (λ idx, is_Some (futures !! idx)) order.

(** [processed_data] after the assignments at the indices of [order]. *)
Definition assign_slots (data : list loc) (order : list nat)
    (processed_data : list (option loc)) : list (option loc) :=
  foldl (λ pd idx, <[idx := data !! idx]> pd) processed_data order.

(** The futures never hold a record other than the one of their index. *)
Definition futures_ok (data : list loc) (futures : gmap nat (outcome loc))
    : Prop :=
  ∀ idx o item r,
    futures !! idx = Some o → data !! idx = Some item → o = Ok r → r = item.

(** Three records for the scheduler; the second one has no [id], and its
    task meets a parse failure that cannot be repaired, so that its future
    fails. *)
Definition pool_world : world :=
  World {[ 0%nat := example_record;
           1%nat := {[ "summary" := JStr "No identifier." ]};
           2%nat := {[ "id" := JStr "2405.00003";
                       "summary" := JStr "We study ordering." ]} ]} [] [] ∅.

Definition pool_chain (idx : nat) : Chain :=
  match idx with
  | 0%nat => answering_chain
  | 1%nat => failing_chain (OutputParserException unrepairable_msg)
  | _ => failing_chain (OtherException "Connection error.")
  end.

(** ** Vocabulary of the further properties *)

(** The exception of [open(path)] for reading when the path leads to no
    file. *)
Definition open_error {fs : FileSystem} (path : string) : exn :=
  match realpath path with
  | Ok _ => FileNotFoundError path
  | Raise e => e
  end.

(** All the characters of [s] are whitespace for [str.strip]. *)
Fixpoint all_space (s : string) : bool :=
  match s with
  | EmptyString => true
  | String c s' => PyStr.isspace c && all_space s'
  end.

(** [m] changes no file. *)
Definition keeps_files {A} (m : M A) : Prop :=
  ∀ w, files (m w).2 = files w.

(** Every record of [data] has an [id]. *)
Definition have_ids (data : list loc) (h : gmap nat (gmap string json)) : Prop :=
  ∀ item, item ∈ data → is_Some ((h !!! item) !! "id").

(** A record that has an [id] and no [summary]. *)
Definition untitled_world : world :=
  World {[ 0%nat := {[ "id" := JStr "2405.00002" ]} ]} [] [] ∅.

(** An input file of three lines, the first two with the same [id], and an
    output file left by an earlier run. *)
Definition run_lines : list json :=
  [ JDict example_record;
    JDict {[ "id" := JStr "2405.00001"; "summary" := JStr "Again." ]};
    JDict {[ "id" := JStr "2405.00003"; "summary" := JStr "We study ordering." ]} ].

Definition run_world : world :=
  World ∅ [] []
    {[ "data/2405.jsonl" := run_lines;
       "data/2405_AI_enhanced_Chinese.jsonl" := [JNull] ]}.

(** A file system in which only the input path of [run_world] leads to a
    file: the directory of every other path is missing. *)
Definition input_only_fs : FileSystem :=
  λ path, if String.eqb path "data/2405.jsonl" then Ok path
          else Raise (FileNotFoundError path).

(** A file system with a directory [x.jsonl] and a directory
    [x_AI_enhanced_Chinese.jsonl]: through either of them the path
    [../in.txt] leads to the one file [in.txt]. *)
Definition aliasing_fs : FileSystem :=
  λ path, if String.eqb path "x.jsonl/../in.txt" then Ok "in.txt"
          else if String.eqb path "x_AI_enhanced_Chinese.jsonl/../in.txt"
          then Ok "in.txt"
          else Ok path.

Definition aliasing_world : world :=
  World ∅ [] [] {[ "in.txt" := [JDict example_record] ]}.

(** A file whose first line is an object without [id] and whose second
    line is no object, and the same lines in the other order. *)
Definition broken_world : world :=
  World ∅ [] []
    {[ "a.jsonl" := [JDict {[ "summary" := JStr "No identifier." ]}; JInt 5];
       "b.jsonl" := [JInt 5; JDict {[ "summary" := JStr "No identifier." ]}] ]}.

(** An input file whose name does not contain [".jsonl"]. *)
Definition json_world : world :=
  World ∅ [] [] {[ "data/2405.json" := [JDict example_record] ]}.

(** * Properties *)

(** ** Facts about the string primitives *)

Example strip_ex : PyStr.strip "   {a b}  " = "{a b}".
Proof. reflexivity. Qed.

Example after_ex : PyStr.after "ts:" "arguments: {x} are" = Some " {x} are".
Proof. reflexivity. Qed.

Example before_ex : PyStr.before "are" " {x} are not" = " {x} ".
Proof. reflexivity. Qed.

Example replace_ex : PyStr.replace "ab" "X" "aababcab" = "aXXcX".
Proof. reflexivity. Qed.

Example int_ex1 : PyStr.int " -1_000 " = Some (-1000).
Proof. reflexivity. Qed.

Example int_ex2 : PyStr.int "1__0" = None /\ PyStr.int "5.0" = None /\ PyStr.int "" = None.
Proof. repeat split; reflexivity. Qed.

(** [str.strip] drops the separator 28 and [int] does not. *)
Example int_ex3 :
  PyStr.strip (String (ascii_of_N 28) "7") = "7"
  /\ PyStr.int (String (ascii_of_N 28) "7") = None
  /\ PyStr.int (String (ascii_of_N 160) "7") = Some 7.
Proof. repeat split; reflexivity. Qed.

(** A literal of 4300 digits is read, one of 4301 digits is refused, and
    neither a sign nor the surrounding whitespace counts. *)
Example int_ex4 :
  is_Some (PyStr.int (" -" +:+ ones 4300 +:+ " "))
  /\ PyStr.int (ones 4301) = None.
Proof. split; [vm_compute; eauto | vm_compute; reflexivity]. Qed.

Lemma str_app_cons (c : ascii) (a b : string) :
  String c a +:+ b = String c (a +:+ b).
Proof. reflexivity. Qed.

Lemma str_prefix_app (p r : string) : String.prefix p (p +:+ r) = true.
Proof.
  induction p as [|c p IH]; simpl.
  - by destruct r.
  - destruct (ascii_dec c c); [done | congruence].
Qed.

Lemma str_prefix_split (p s : string) :
  String.prefix p s = true → ∃ r, s = p +:+ r.
Proof.
  revert s. induction p as [|c p IH]; intros s Hp.
  - by exists s.
  - destruct s as [|c' s]; simpl in Hp; [done |].
    destruct (ascii_dec c c') as [<- |]; [| done].
    destruct (IH _ Hp) as [r ->]. by exists r.
Qed.

Lemma contains_false_inv (sep : string) (c : ascii) (s : string) :
  PyStr.contains sep (String c s) = false →
  String.prefix sep (String c s) = false ∧ PyStr.contains sep s = false.
Proof.
  unfold PyStr.contains. cbn [PyStr.after].
  destruct (String.prefix sep (String c s)); [done |].
  by destruct (PyStr.after sep s).
Qed.

Lemma replace_absent (old new s : string) :
  PyStr.contains old s = false → PyStr.replace old new s = s.
Proof.
  unfold PyStr.replace. induction s as [|c s IH]; intros Hc; [done |].
  apply contains_false_inv in Hc as [Hp Hc].
  cbn [PyStr.replace_from]. rewrite Hp. by rewrite IH.
Qed.

Lemma replace_from_skip (old new t s : string) :
  PyStr.replace_from old new (String.length t) (t +:+ s)
  = PyStr.replace_from old new 0 s.
Proof. induction t as [|c t IH]; simpl; [by destruct s | done]. Qed.

Lemma replace_hit (old new : string) (c : ascii) (old' b : string) :
  old = String c old' →
  PyStr.replace old new (old +:+ b) = new +:+ PyStr.replace old new b.
Proof.
  intros ->. unfold PyStr.replace.
  change (String c old' +:+ b) with (String c (old' +:+ b)).
  cbn [PyStr.replace_from].
  change (String c (old' +:+ b)) with (String c old' +:+ b).
  rewrite str_prefix_app.
  replace (String.length (String c old') - 1)%nat with (String.length old')
    by (simpl; lia).
  by rewrite replace_from_skip.
Qed.

Lemma str_app_assoc (a b c : string) : (a +:+ b) +:+ c = a +:+ (b +:+ c).
Proof. induction a as [|x a IH]; [done |]. rewrite !str_app_cons. by f_equal. Qed.

(** No occurrence of [".jsonl"] starts inside [a] and runs over into a
    following [".jsonl"]: the text has a dot at its head only. *)
Lemma jsonl_no_overlap (c : ascii) (a b : string) :
  String.prefix ".jsonl" (String c a) = false →
  String.prefix ".jsonl" (String c a +:+ ".jsonl" +:+ b) = false.
Proof.
  intros Hp.
  destruct (String.prefix ".jsonl" (String c a +:+ ".jsonl" +:+ b)) eqn:Hq; [| done].
  exfalso. apply str_prefix_split in Hq as [r Hr].
  assert (String.prefix ".jsonl" (String c a) = true) as Hp'; [| congruence].
  clear Hp. simpl in Hr. injection Hr as -> Hr.
  destruct a as [|c1 a]; [simpl in Hr; discriminate |]. simpl in Hr. injection Hr as -> Hr.
  destruct a as [|c2 a]; [simpl in Hr; discriminate |]. simpl in Hr. injection Hr as -> Hr.
  destruct a as [|c3 a]; [simpl in Hr; discriminate |]. simpl in Hr. injection Hr as -> Hr.
  destruct a as [|c4 a]; [simpl in Hr; discriminate |]. simpl in Hr. injection Hr as -> Hr.
  destruct a as [|c5 a]; [simpl in Hr; discriminate |]. simpl in Hr. injection Hr as -> Hr.
  apply (str_prefix_app ".jsonl" a).
Qed.

Lemma target_file_occurrence (a b language : string) :
  PyStr.contains ".jsonl" a = false →
  target_file (a +:+ ".jsonl" +:+ b) language
  = a +:+ "_AI_enhanced_" +:+ language +:+ ".jsonl" +:+ target_file b language.
Proof.
  unfold target_file. intros Hc. induction a as [|c a IH].
  - change (EmptyString +:+ ".jsonl" +:+ b) with (".jsonl" +:+ b).
    rewrite (replace_hit _ _ "." "jsonl") by done.
    simpl. by rewrite !str_app_assoc.
  - apply contains_false_inv in Hc as [Hp Hc].
    unfold PyStr.replace in *.
    change (String c a +:+ ".jsonl" +:+ b) with (String c (a +:+ ".jsonl" +:+ b)).
    cbn [PyStr.replace_from].
    change (String c (a +:+ ".jsonl" +:+ b)) with (String c a +:+ ".jsonl" +:+ b).
    rewrite (jsonl_no_overlap _ _ _ Hp).
    rewrite (IH Hc). done.
Qed.

(** ** The output path *)

(** X13: a path without [".jsonl"] is its own output path, so [main]
    first removes the input file and then fails to open it. *)
Lemma main_removes_input_without_jsonl `{!JsonDecoder} {clock : Clock}
    {fs : FileSystem} (delay : Z)
    (chain : nat → Chain) (data_path : string) (max_workers : Z)
    (environ : gmap string string) (order : list nat) (w : world)
    (name : string) (lines : list json) :
  PyStr.contains ".jsonl" data_path = false →
  realpath data_path = Ok name →
  files w !! name = Some lines →
  main delay chain data_path max_workers environ order w
  = (Raise (FileNotFoundError data_path),
     World (heap w) (slept w) (stderr w ++ [RemovedExisting data_path])
       (delete name (files w))).
Proof.
  intros Hc Hn Hf. unfold main, target_file. rewrite (replace_absent _ _ _ Hc).
  unfold mbind, M_bind, bind, remove_if_exists, read_jsonl, print_stderr.
  rewrite Hn, Hf. simpl. by rewrite lookup_delete_eq.
Qed.

(** C10: the output path is the input path with every occurrence of
    [".jsonl"] replaced, wherever it stands: the text up to and including
    the first occurrence is rewritten and the rest is treated the same way.
    A path in which [".jsonl"] does not occur is left as it is, so the
    output path is the input path, and the removal before the run removes
    the input file itself. *)
Theorem target_file_replaces_every_occurrence {fs : FileSystem}
    (data language : string) :
  (∀ a b : string,
     PyStr.contains ".jsonl" a = false →
     target_file (a +:+ ".jsonl" +:+ b) language
     = a +:+ "_AI_enhanced_" +:+ language +:+ ".jsonl" +:+ target_file b language)
  ∧ (PyStr.contains ".jsonl" data = false →
     target_file data language = data
     ∧ ∀ (w : world) (name : string) (lines : list json),
         realpath data = Ok name →
         files w !! name = Some lines →
         files (remove_if_exists (target_file data language) w).2 !! name = None).
Proof.
  split.
  - intros a b Ha. by apply target_file_occurrence.
  - intros Hc. unfold target_file. rewrite (replace_absent _ _ _ Hc).
    split; [done |]. intros w name lines Hn Hf. unfold remove_if_exists.
    rewrite Hn, Hf. simpl. apply lookup_delete_eq.
Qed.

Lemma target_file_replaces_every_occurrence_witness :
  target_file "a.jsonl.d/b.jsonl" "Chinese"
    = "a_AI_enhanced_Chinese.jsonl.d/b_AI_enhanced_Chinese.jsonl"
  ∧ target_file "data/2024-05-01.json" "Chinese" = "data/2024-05-01.json".
Proof.
  split.
  - exact (proj1 (target_file_replaces_every_occurrence (fs := flat_fs) ""
                    "Chinese")
             "a" ".d/b.jsonl" eq_refl).
  - apply (proj2 (target_file_replaces_every_occurrence (fs := flat_fs)
                    "data/2024-05-01.json" "Chinese") eq_refl).
Defined.

(** ** Configuration *)

Lemma load_api_delay_unset (environ : gmap string string) :
  environ !! "API_DELAY_SECONDS" = None →
  load_api_delay environ = (Ok 5, []).
Proof. intros H. unfold load_api_delay. by rewrite H. Qed.

(** A negative integer is replaced by the default, with a warning. *)
Lemma load_api_delay_negative (environ : gmap string string) (s : string) (v : Z) :
  environ !! "API_DELAY_SECONDS" = Some s →
  PyStr.int s = Some v → v < 0 →
  load_api_delay environ = (Ok 5, [WarnInvalidDelay v]).
Proof.
  intros H Hs Hv. unfold load_api_delay. rewrite H, Hs.
  by rewrite (proj2 (Z.ltb_lt v 0) Hv).
Qed.

(** X11: whenever the configuration is loaded, the delay is not
    negative. *)
Lemma load_api_delay_nonneg (environ : gmap string string) (v : Z)
    (ds : list diag) :
  load_api_delay environ = (Ok v, ds) → 0 ≤ v.
Proof.
  unfold load_api_delay. intros H.
  destruct (environ !! "API_DELAY_SECONDS") as [s|]; [| simplify_eq; lia].
  destruct (PyStr.int s) as [z|]; [| done].
  destruct (z <? 0) eqn:Hz; simplify_eq; [lia |].
  by apply Z.ltb_ge.
Qed.

(** C8 (as the code behaves): a value of [API_DELAY_SECONDS] that is no
    integer literal makes [int] raise [ValueError] at line 28; the run
    aborts, no warning is printed and the default is not used. *)
Theorem load_api_delay_non_integer_aborts (environ : gmap string string)
    (s : string) :
  environ !! "API_DELAY_SECONDS" = Some s →
  PyStr.int s = None →
  load_api_delay environ = (Raise (ValueError s), []).
Proof. intros H Hs. unfold load_api_delay. by rewrite H, Hs. Qed.

Lemma load_api_delay_non_integer_aborts_witness :
  load_api_delay {[ "API_DELAY_SECONDS" := "abc" ]}
  = (Raise (ValueError "abc"), []).
Proof.
  apply (load_api_delay_non_integer_aborts {[ "API_DELAY_SECONDS" := "abc" ]} "abc");
    reflexivity.
Defined.

(** ** The pacing sleep *)

(** [time.sleep] makes the sleep exactly when its length is in the range
    from 0 to [sleep_max]. *)
Lemma sleep_error_None {clock : Clock} (secs : Z) :
  sleep_error secs = None ↔ 0 ≤ secs ≤ sleep_max.
Proof.
  unfold sleep_error, sleep_max.
  destruct (Z.ltb_spec secs (- time_max)); simpl;
    [split; [done | unfold time_max in *; lia] |].
  destruct (Z.ltb_spec time_max secs); simpl; [split; [done | lia] |].
  destruct (Z.ltb_spec secs 0); [split; [done | lia] |].
  destruct (Z.ltb_spec sleep_room secs); [split; [done | lia] |].
  split; [lia | done].
Qed.

(** The exceptions of [time.sleep] are caught by [except Exception], not
    by [except OutputParserException]. *)
Lemma sleep_error_no_parse_failure {clock : Clock} (secs : Z) (se : exn) :
  sleep_error secs = Some se → is_parse_failure se = false.
Proof. unfold sleep_error. repeat case_match; by intros [= <-]. Qed.

Lemma sleep_in_range {clock : Clock} (secs : Z) :
  0 ≤ secs → secs ≤ sleep_max → sleep_error secs = None.
Proof. intros. apply sleep_error_None. lia. Qed.

Lemma sleep_accepted {clock : Clock} (secs : Z) (w : world) :
  sleep_error secs = None →
  sleep secs w
  = (Ok tt, World (heap w) (slept w ++ [secs]) (stderr w) (files w)).
Proof. intros Hs. unfold sleep. by rewrite Hs. Qed.

Lemma sleep_refused {clock : Clock} (secs : Z) (se : exn) (w : world) :
  sleep_error secs = Some se → sleep secs w = (Raise se, w).
Proof. intros Hs. unfold sleep. by rewrite Hs. Qed.

(** ** The rate-limited invoker *)

Ltac run_invoker :=
  unfold process_single_item, repair, try_except, annotated,
    mbind, M_bind, bind, getitem, get, lift, setitem, sleep, print_stderr,
    mret, M_ret, ret, raise;
  simpl.

Section InvokerFacts.
Context `{!JsonDecoder} {clock : Clock}.
Variable API_DELAY_SECONDS : Z.
Hypothesis delay_ok : sleep_error API_DELAY_SECONDS = None.
Variables (chain : Chain) (item : loc) (language : string).

Local Abbreviation invoke_item := (process_single_item API_DELAY_SECONDS chain item language).
Local Abbreviation delay := API_DELAY_SECONDS.

(** Lines 51-58 and 111: the call succeeds. *)
Lemma invoke_success (w : world) (content : json) (response : Structure) :
  (heap w !!! item) !! "summary" = Some content →
  chain language content = Ok response →
  invoke_item w
  = (Ok item, annotated w item (model_dump response) [delay; delay] []).
Proof.
  intros Hs Hc. run_invoker. rewrite Hs, Hc. simpl.
  rewrite delay_ok. simpl.
  by rewrite <- app_assoc, app_nil_r.
Qed.

(** Lines 62-74: the output could not be parsed and the repair works. *)
Lemma invoke_repaired (w : world) (content : json) (msg : string) (v : json) :
  (heap w !!! item) !! "summary" = Some content →
  chain language content = Raise (OutputParserException msg) →
  PyStr.contains marker msg = true →
  json_loads (escape_backslashes (extract_json_str msg)) = Ok v →
  invoke_item w = (Ok item, annotated w item v [delay] []).
Proof.
  intros Hs Hc Hm Hj. run_invoker. rewrite Hs, Hc. simpl.
  rewrite Hm, Hj. simpl. rewrite delay_ok. simpl.
  by rewrite app_nil_r.
Qed.

(** Lines 62-69, 75-87: the repair fails at [json.loads]. *)
Lemma invoke_unrepairable (w : world) (content : json) (msg : string)
    (json_e : exn) (id : json) :
  (heap w !!! item) !! "summary" = Some content →
  chain language content = Raise (OutputParserException msg) →
  PyStr.contains marker msg = true →
  json_loads (escape_backslashes (extract_json_str msg)) = Raise json_e →
  (heap w !!! item) !! "id" = Some id →
  invoke_item w
  = (Ok item,
     annotated w item error_sentinel [delay]
       [FailedToFixJSON id json_e (escape_backslashes (extract_json_str msg))]).
Proof.
  intros Hs Hc Hm Hj Hi. run_invoker. rewrite Hs, Hc. simpl.
  rewrite Hm, Hj. simpl. rewrite Hi. simpl. by rewrite delay_ok.
Qed.

(** Line 76 on a record without [id]: the [KeyError] leaves the function,
    and nothing has been written or slept. *)
Lemma invoke_unrepairable_no_id (w : world) (content : json) (msg : string)
    (json_e : exn) :
  (heap w !!! item) !! "summary" = Some content →
  chain language content = Raise (OutputParserException msg) →
  PyStr.contains marker msg = true →
  json_loads (escape_backslashes (extract_json_str msg)) = Raise json_e →
  (heap w !!! item) !! "id" = None →
  invoke_item w = (Raise (KeyError "id"), w).
Proof.
  intros Hs Hc Hm Hj Hi. run_invoker. rewrite Hs, Hc. simpl.
  rewrite Hm, Hj. simpl. by rewrite Hi.
Qed.

(** Lines 62, 79-87: the marker is not in the error text. *)
Lemma invoke_no_marker (w : world) (content : json) (msg : string) :
  (heap w !!! item) !! "summary" = Some content →
  chain language content = Raise (OutputParserException msg) →
  PyStr.contains marker msg = false →
  invoke_item w = (Ok item, annotated w item error_sentinel [delay] []).
Proof.
  intros Hs Hc Hm. run_invoker. rewrite Hs, Hc. simpl.
  rewrite Hm. simpl. rewrite delay_ok. simpl. by rewrite app_nil_r.
Qed.

(** Lines 88-98: any other exception of the call. *)
Lemma invoke_generic (w : world) (content : json) (e : exn) :
  (heap w !!! item) !! "summary" = Some content →
  chain language content = Raise e →
  is_parse_failure e = false →
  invoke_item w
  = (Ok item,
     annotated w item (unexpected_sentinel e) [delay]
       [UnexpectedError (default (JStr "unknown") ((heap w !!! item) !! "id")) e]).
Proof.
  intros Hs Hc He. run_invoker. rewrite Hs, Hc. simpl.
  destruct e; try done; simpl; by rewrite delay_ok.
Qed.

(** Lines 53, 88-98: the record has no [summary]. *)
Lemma invoke_no_summary (w : world) :
  (heap w !!! item) !! "summary" = None →
  invoke_item w
  = (Ok item,
     annotated w item (unexpected_sentinel (KeyError "summary")) [delay]
       [UnexpectedError (default (JStr "unknown") ((heap w !!! item) !! "id"))
          (KeyError "summary")]).
Proof.
  intros Hs. run_invoker. rewrite Hs. simpl. by rewrite delay_ok.
Qed.

(** Under a delay that [time.sleep] accepts the seven equations above cover
    every run: the function returns [item] with [AI] written, or it raises
    [KeyError] for [id] and leaves the world as it was. *)
Lemma invoke_cases (w : world) :
  (∃ ai zs ds, invoke_item w = (Ok item, annotated w item ai zs ds))
  ∨ (invoke_item w = (Raise (KeyError "id"), w)
     ∧ (heap w !!! item) !! "id" = None).
Proof.
  destruct ((heap w !!! item) !! "summary") as [content|] eqn:Hs;
    [| left; eauto using invoke_no_summary].
  destruct (chain language content) as [response|e] eqn:Hc;
    [left; eauto using invoke_success |].
  destruct (is_parse_failure e) eqn:He;
    [| left; eauto using invoke_generic].
  destruct e; try done.
  destruct (PyStr.contains marker msg) eqn:Hm;
    [| left; eauto using invoke_no_marker].
  destruct (json_loads (escape_backslashes (extract_json_str msg)))
    as [v|json_e] eqn:Hj; [left; eauto using invoke_repaired |].
  destruct ((heap w !!! item) !! "id") as [id|] eqn:Hi.
  - left. eauto using invoke_unrepairable.
  - right. eauto using invoke_unrepairable_no_id.
Qed.

End InvokerFacts.

Lemma annotated_AI (w : world) (item : loc) (ai : json) (zs : list Z)
    (ds : list diag) :
  (heap (annotated w item ai zs ds) !!! item) !! "AI" = Some ai.
Proof.
  unfold annotated. simpl. rewrite lookup_total_insert_eq.
  apply lookup_insert_eq.
Qed.

Lemma annotated_other_field (w : world) (item : loc) (ai : json)
    (zs : list Z) (ds : list diag) (k : string) :
  k ≠ "AI" →
  (heap (annotated w item ai zs ds) !!! item) !! k = (heap w !!! item) !! k.
Proof.
  intros Hk. unfold annotated. simpl. rewrite lookup_total_insert_eq.
  by apply lookup_insert_ne.
Qed.

Lemma annotated_other_record (w : world) (item l : loc) (ai : json)
    (zs : list Z) (ds : list diag) :
  l ≠ item → heap (annotated w item ai zs ds) !! l = heap w !! l.
Proof. intros Hl. unfold annotated. simpl. by apply lookup_insert_ne. Qed.

(** *** A delay that [time.sleep] refuses *)

(** When [time.sleep] refuses the delay with [se], every path ends in an
    exception: the sleep of the handler that catches the first one raises
    [se] again, or line 76 raises [KeyError] before. *)
Section InvokerRefused.
Context `{!JsonDecoder} {clock : Clock}.
Variable API_DELAY_SECONDS : Z.
Variables (chain : Chain) (item : loc) (language : string).

Local Abbreviation invoke_item :=
  (process_single_item API_DELAY_SECONDS chain item language).
Local Abbreviation refused se := (sleep_error API_DELAY_SECONDS = Some se).
Local Abbreviation id_of w :=
  (default (JStr "unknown") ((heap w !!! item) !! "id")).

Ltac refused_generic Hr :=
  pose proof (sleep_error_no_parse_failure _ _ Hr);
  match type of Hr with _ = Some ?se => destruct se; try done end;
  simpl; rewrite ?Hr; simpl;
  rewrite ?lookup_total_insert_eq, ?insert_insert_eq, ?app_nil_r;
  rewrite ?lookup_insert_ne by done;
  try done.

(** Lines 51-58, 88-98: the call succeeds, the sleep of line 58 raises
    and the handler of line 88 overwrites the answer. *)
Lemma refused_success (se : exn) (w : world) (content : json)
    (response : Structure) :
  refused se →
  (heap w !!! item) !! "summary" = Some content →
  chain language content = Ok response →
  invoke_item w
  = (Raise se,
     annotated w item (unexpected_sentinel se) [] [UnexpectedError (id_of w) se]).
Proof.
  intros Hr Hs Hc. run_invoker. rewrite Hs, Hc. simpl. rewrite Hr.
  refused_generic Hr.
Qed.

(** Lines 62-76, 79-87: the repair decodes the text, the sleep of line 73
    raises inside the inner [try], and the sentinel replaces the decoded
    value. *)
Lemma refused_repaired (se : exn) (w : world) (content : json) (msg : string)
    (v id : json) :
  refused se →
  (heap w !!! item) !! "summary" = Some content →
  chain language content = Raise (OutputParserException msg) →
  PyStr.contains marker msg = true →
  json_loads (escape_backslashes (extract_json_str msg)) = Ok v →
  (heap w !!! item) !! "id" = Some id →
  invoke_item w
  = (Raise se,
     annotated w item error_sentinel []
       [FailedToFixJSON id se (escape_backslashes (extract_json_str msg))]).
Proof.
  intros Hr Hs Hc Hm Hj Hi. run_invoker. rewrite Hs, Hc. simpl.
  rewrite Hm, Hj. simpl. rewrite Hr. simpl.
  rewrite lookup_total_insert_eq, lookup_insert_ne, Hi by done. simpl.
  by rewrite !lookup_total_insert_eq, !insert_insert_eq, app_nil_r.
Qed.

(** The same on a record without [id]: line 76 raises [KeyError] and the
    record keeps the decoded value. *)
Lemma refused_repaired_no_id (se : exn) (w : world) (content : json)
    (msg : string) (v : json) :
  refused se →
  (heap w !!! item) !! "summary" = Some content →
  chain language content = Raise (OutputParserException msg) →
  PyStr.contains marker msg = true →
  json_loads (escape_backslashes (extract_json_str msg)) = Ok v →
  (heap w !!! item) !! "id" = None →
  invoke_item w = (Raise (KeyError "id"), annotated w item v [] []).
Proof.
  intros Hr Hs Hc Hm Hj Hi. run_invoker. rewrite Hs, Hc. simpl.
  rewrite Hm, Hj. simpl. rewrite Hr. simpl.
  rewrite lookup_total_insert_eq, lookup_insert_ne, Hi by done. simpl.
  by rewrite !app_nil_r.
Qed.

Lemma refused_unrepairable (se : exn) (w : world) (content : json)
    (msg : string) (json_e : exn) (id : json) :
  refused se →
  (heap w !!! item) !! "summary" = Some content →
  chain language content = Raise (OutputParserException msg) →
  PyStr.contains marker msg = true →
  json_loads (escape_backslashes (extract_json_str msg)) = Raise json_e →
  (heap w !!! item) !! "id" = Some id →
  invoke_item w
  = (Raise se,
     annotated w item error_sentinel []
       [FailedToFixJSON id json_e (escape_backslashes (extract_json_str msg))]).
Proof.
  intros Hr Hs Hc Hm Hj Hi. run_invoker. rewrite Hs, Hc. simpl.
  rewrite Hm, Hj. simpl. rewrite Hi. simpl. rewrite Hr. simpl.
  by rewrite app_nil_r.
Qed.

Lemma refused_no_marker (se : exn) (w : world) (content : json)
    (msg : string) :
  refused se →
  (heap w !!! item) !! "summary" = Some content →
  chain language content = Raise (OutputParserException msg) →
  PyStr.contains marker msg = false →
  invoke_item w = (Raise se, annotated w item error_sentinel [] []).
Proof.
  intros Hr Hs Hc Hm. run_invoker. rewrite Hs, Hc. simpl.
  rewrite Hm. simpl. rewrite Hr. simpl. by rewrite !app_nil_r.
Qed.

Lemma refused_generic_error (se : exn) (w : world) (content : json) (e : exn) :
  refused se →
  (heap w !!! item) !! "summary" = Some content →
  chain language content = Raise e →
  is_parse_failure e = false →
  invoke_item w
  = (Raise se,
     annotated w item (unexpected_sentinel e) [] [UnexpectedError (id_of w) e]).
Proof.
  intros Hr Hs Hc He. run_invoker. rewrite Hs, Hc. simpl.
  destruct e; try done; simpl; rewrite Hr; simpl; by rewrite app_nil_r.
Qed.

Lemma refused_no_summary (se : exn) (w : world) :
  refused se →
  (heap w !!! item) !! "summary" = None →
  invoke_item w
  = (Raise se,
     annotated w item (unexpected_sentinel (KeyError "summary")) []
       [UnexpectedError (id_of w) (KeyError "summary")]).
Proof.
  intros Hr Hs. run_invoker. rewrite Hs. simpl. rewrite Hr. simpl.
  by rewrite app_nil_r.
Qed.

(** Under a delay that is refused the function never returns: it raises
    after it has written [AI], or it raises [KeyError] for [id] and
    leaves the world as it was. *)
Lemma refused_cases (se : exn) (w : world) :
  refused se →
  (∃ e ai ds, invoke_item w = (Raise e, annotated w item ai [] ds))
  ∨ (invoke_item w = (Raise (KeyError "id"), w)
     ∧ (heap w !!! item) !! "id" = None).
Proof.
  intros Hr.
  destruct ((heap w !!! item) !! "summary") as [content|] eqn:Hs;
    [| left; eauto using refused_no_summary].
  destruct (chain language content) as [response|e] eqn:Hc;
    [left; eauto using refused_success |].
  destruct (is_parse_failure e) eqn:He;
    [| left; eauto using refused_generic_error].
  destruct e; try done.
  destruct (PyStr.contains marker msg) eqn:Hm;
    [| left; eauto using refused_no_marker].
  destruct (json_loads (escape_backslashes (extract_json_str msg)))
    as [v|json_e] eqn:Hj;
    destruct ((heap w !!! item) !! "id") as [id|] eqn:Hi.
  - left. eauto using refused_repaired.
  - left. eauto using refused_repaired_no_id.
  - left. eauto using refused_unrepairable.
  - right. eauto using invoke_unrepairable_no_id.
Qed.

End InvokerRefused.

Section InvokerClaims.
Context `{!JsonDecoder} {clock : Clock}.
Variable API_DELAY_SECONDS : Z.
Hypothesis delay_nonneg : 0 ≤ API_DELAY_SECONDS.
Variables (chain : Chain) (item : loc) (language : string).

Local Abbreviation invoke_item :=
  (process_single_item API_DELAY_SECONDS chain item language).

(** C4: for a record with an [id] and a delay that [time.sleep] accepts,
    whatever the call does (an answer, a parse failure with or without a
    payload that can be repaired, any other exception, even a missing
    [summary]), [process_single_item] does not raise: it returns the
    record, and the record has an [AI] field.  The configuration yields a
    delay that is not negative ([load_api_delay_nonneg]); it sets no upper
    limit, and under a delay above [sleep_max] every call raises
    ([refused_cases]). *)
Theorem process_single_item_never_raises (w : world) :
  API_DELAY_SECONDS ≤ sleep_max →
  is_Some ((heap w !!! item) !! "id") →
  ∃ w2, invoke_item w = (Ok item, w2)
        ∧ is_Some ((heap w2 !!! item) !! "AI").
Proof.
  intros Hmax [id Hid].
  pose proof (sleep_in_range _ delay_nonneg Hmax) as delay_ok.
  destruct (invoke_cases _ delay_ok chain item language w)
    as [(ai & zs & ds & ->) | [_ Hnone]].
  - eexists. split; [done |]. rewrite annotated_AI. eauto.
  - congruence.
Qed.

(** C3 (as the code behaves): when the call succeeds the delay is paid
    twice, once at line 58 inside [try] and once more at line 111 in the
    [else] branch.  (Under a delay above [sleep_max] the sleep of line 58
    raises and no sleep is made.) *)
Theorem process_single_item_success_sleeps_twice (w : world)
    (content : json) (response : Structure) :
  (heap w !!! item) !! "summary" = Some content →
  chain language content = Ok response →
  slept (invoke_item w).2
  = slept w ++ (if API_DELAY_SECONDS <=? sleep_max
                then [API_DELAY_SECONDS; API_DELAY_SECONDS] else []).
Proof.
  intros Hs Hc. destruct (Z.leb_spec API_DELAY_SECONDS sleep_max) as [Hmax|Hmax].
  - pose proof (sleep_in_range _ delay_nonneg Hmax) as delay_ok.
    by rewrite (invoke_success _ delay_ok _ _ _ _ _ _ Hs Hc).
  - destruct (sleep_error API_DELAY_SECONDS) as [se|] eqn:Hr.
    + by rewrite (refused_success _ _ _ _ _ _ _ _ Hr Hs Hc).
    + apply sleep_error_None in Hr. lia.
Qed.

(** X5: on every path through an [except] branch that returns, the delay
    is paid once. *)
Lemma process_single_item_failure_sleeps_once (w w2 : world)
    (content : json) (e : exn) :
  (heap w !!! item) !! "summary" = Some content →
  chain language content = Raise e →
  invoke_item w = (Ok item, w2) →
  slept w2 = slept w ++ [API_DELAY_SECONDS].
Proof.
  intros Hs Hc Hrun.
  destruct (sleep_error API_DELAY_SECONDS) as [se|] eqn:delay_ok.
  { destruct (refused_cases API_DELAY_SECONDS chain item language se w delay_ok)
      as [(e2 & ai & ds & Hr) | [Hr _]]; rewrite Hr in Hrun; done. }
  destruct (is_parse_failure e) eqn:He.
  - destruct e; try done.
    destruct (PyStr.contains marker msg) eqn:Hm.
    + destruct (json_loads (escape_backslashes (extract_json_str msg)))
        as [v|json_e] eqn:Hj.
      * rewrite (invoke_repaired _ delay_ok _ _ _ _ _ _ _ Hs Hc Hm Hj) in Hrun.
        by simplify_eq.
      * destruct ((heap w !!! item) !! "id") as [id|] eqn:Hi.
        -- rewrite (invoke_unrepairable _ delay_ok _ _ _ _ _ _ _ _ Hs Hc Hm Hj Hi) in Hrun.
           by simplify_eq.
        -- rewrite (invoke_unrepairable_no_id _ _ _ _ _ _ _ _ Hs Hc Hm Hj Hi) in Hrun.
           done.
    + rewrite (invoke_no_marker _ delay_ok _ _ _ _ _ _ Hs Hc Hm) in Hrun.
      by simplify_eq.
  - rewrite (invoke_generic _ delay_ok _ _ _ _ _ _ Hs Hc He) in Hrun.
    by simplify_eq.
Qed.

(** C6: when the output cannot be parsed, the error text contains the
    marker, and the extracted text with its backslashes doubled decodes,
    the decoded value itself becomes [AI], whatever its shape; the other
    fields are kept, the delay is paid once and nothing is printed.  The
    delay is one that [time.sleep] accepts. *)
Theorem process_single_item_repair_passes_payload (w : world)
    (content : json) (msg : string) (v : json) :
  API_DELAY_SECONDS ≤ sleep_max →
  (heap w !!! item) !! "summary" = Some content →
  chain language content = Raise (OutputParserException msg) →
  PyStr.contains marker msg = true →
  json_loads (escape_backslashes (extract_json_str msg)) = Ok v →
  ∃ w2, invoke_item w = (Ok item, w2)
        ∧ (heap w2 !!! item) !! "AI" = Some v
        ∧ (∀ k, k ≠ "AI" → (heap w2 !!! item) !! k = (heap w !!! item) !! k)
        ∧ slept w2 = slept w ++ [API_DELAY_SECONDS]
        ∧ stderr w2 = stderr w.
Proof.
  intros Hmax Hs Hc Hm Hj.
  pose proof (sleep_in_range _ delay_nonneg Hmax) as delay_ok.
  eexists. split.
  - by apply (invoke_repaired _ delay_ok _ _ _ _ _ _ _ Hs Hc Hm Hj).
  - split; [apply annotated_AI |].
    split; [intros k Hk; by apply annotated_other_field |].
    simpl. by rewrite app_nil_r.
Qed.


End InvokerClaims.

(** *** The claims on the example record *)

Example extract_json_str_example :
  extract_json_str repairable_msg = "{}"
  ∧ escape_backslashes ("{" +:+ backslash +:+ "frac}")
    = "{" +:+ backslash +:+ backslash +:+ "frac}".
Proof. split; reflexivity. Qed.

Lemma year_clock_room : 5 ≤ sleep_max (clock := year_clock).
Proof. vm_compute. discriminate. Defined.

Lemma year_clock_range : 0 ≤ 5 ≤ sleep_max (clock := year_clock).
Proof. split; [lia | exact year_clock_room]. Defined.

Lemma process_single_item_never_raises_witness :
  ∃ w2,
    process_single_item (H := constants_loads) (clock := year_clock) 5
      (failing_chain (OutputParserException unrepairable_msg)) 0%nat "Chinese"
      example_world = (Ok 0%nat, w2)
    ∧ is_Some ((heap w2 !!! 0%nat) !! "AI").
Proof.
  apply (process_single_item_never_raises (H := constants_loads)
           (clock := year_clock) 5).
  - lia.
  - exact year_clock_room.
  - exists (JStr "2405.00001"). reflexivity.
Defined.

Lemma process_single_item_success_sleeps_twice_witness :
  slept (process_single_item (H := constants_loads) (clock := year_clock) 5
           answering_chain 0%nat "Chinese" example_world).2 = [5; 5].
Proof.
  apply (process_single_item_success_sleeps_twice (H := constants_loads)
           (clock := year_clock) 5
           ltac:(lia) answering_chain 0%nat "Chinese" example_world
           (JStr "We study pacing.") (mkStructure "short" "why" "how" "what" "so"));
    reflexivity.
Defined.

Lemma process_single_item_repair_passes_payload_witness :
  ∃ w2,
    process_single_item (H := constants_loads) (clock := year_clock) 5
      (failing_chain (OutputParserException repairable_msg)) 0%nat "Chinese"
      example_world = (Ok 0%nat, w2)
    ∧ (heap w2 !!! 0%nat) !! "AI" = Some (JDict ∅)
    ∧ (∀ k, k ≠ "AI" →
         (heap w2 !!! 0%nat) !! k = (heap example_world !!! 0%nat) !! k)
    ∧ slept w2 = [5]
    ∧ stderr w2 = [].
Proof.
  apply (process_single_item_repair_passes_payload (H := constants_loads)
           (clock := year_clock) 5
           ltac:(lia) (failing_chain (OutputParserException repairable_msg))
           0%nat "Chinese" example_world (JStr "We study pacing.")
           repairable_msg (JDict ∅));
    [exact year_clock_room | reflexivity ..].
Defined.


(** The second half of C7 once more, with the sleep and the diagnostic. *)
Example process_single_item_error_sentinel_example :
  let r := process_single_item (H := constants_loads) (clock := year_clock) 5
             (failing_chain (OutputParserException unrepairable_msg)) 0%nat
             "Chinese" example_world in
  r.1 = Ok 0%nat
  ∧ (heap r.2 !!! 0%nat) !! "AI" = Some error_sentinel
  ∧ slept r.2 = [5]
  ∧ stderr r.2
    = [FailedToFixJSON (JStr "2405.00001") (JSONDecodeError "Expecting value")
         "{oops"].
Proof. vm_compute. repeat split; reflexivity. Qed.

(** A delay of [10^10] seconds passes the check of line 31 and is refused
    by [time.sleep]: the service has answered, the sleep of line 58 raises
    [OverflowError], the handler of line 88 replaces the answer by its
    sentinel, and its own sleep raises again. *)
Example process_single_item_overflow_example :
  let e := OverflowError "timestamp too large to convert to C _PyTime_t" in
  let r := process_single_item (H := constants_loads) (clock := year_clock)
             10000000000 answering_chain 0%nat "Chinese" example_world in
  load_api_delay {[ "API_DELAY_SECONDS" := "10000000000" ]}
  = (Ok 10000000000, [])
  ∧ r.1 = Raise e
  ∧ (heap r.2 !!! 0%nat) !! "AI" = Some (unexpected_sentinel e)
  ∧ slept r.2 = []
  ∧ stderr r.2 = [UnexpectedError (JStr "2405.00001") e].
Proof. vm_compute. repeat split; reflexivity. Qed.

(** ** Deduplication *)

Lemma first_occurrences_from_sublist (key : loc → hkey) (earlier : list hkey)
    (data : list loc) :
  sublist (first_occurrences_from key earlier data) data.
Proof.
  revert earlier. induction data as [|item data IH]; intros earlier; simpl.
  - constructor.
  - case_decide.
    + apply sublist_cons, IH.
    + apply sublist_skip, IH.
Qed.

Lemma first_occurrences_from_keys (key : loc → hkey) (earlier : list hkey)
    (data : list loc) (k : hkey) :
  k ∈ key <$> first_occurrences_from key earlier data
  ↔ k ∈ key <$> data ∧ k ∉ earlier.
Proof.
  revert earlier. induction data as [|item data IH]; intros earlier; simpl.
  - set_solver.
  - case_decide as Hin.
    + rewrite IH. set_solver.
    + rewrite fmap_cons, elem_of_cons, IH.
      destruct (decide (k = key item)) as [-> |]; set_solver.
Qed.

Lemma first_occurrences_from_NoDup (key : loc → hkey) (earlier : list hkey)
    (data : list loc) :
  NoDup (key <$> first_occurrences_from key earlier data).
Proof.
  revert earlier. induction data as [|item data IH]; intros earlier; simpl.
  - constructor.
  - case_decide; [apply IH |].
    rewrite fmap_cons. constructor; [| apply IH].
    rewrite first_occurrences_from_keys. set_solver.
Qed.

(** The retained records are a subsequence of the input, no two of them
    have the same [id], and every [id] of the input is the [id] of one of
    them. *)
Lemma first_occurrences_spec (key : loc → hkey) (data : list loc) :
  sublist (first_occurrences key data) data
  ∧ NoDup (key <$> first_occurrences key data)
  ∧ ∀ k, k ∈ key <$> first_occurrences key data ↔ k ∈ key <$> data.
Proof.
  split; [apply first_occurrences_from_sublist |].
  split; [apply first_occurrences_from_NoDup |].
  intros k. unfold first_occurrences. rewrite first_occurrences_from_keys.
  set_solver.
Qed.

(** The loop keeps in [seen_ids] the [id]s of the retained records only;
    as a set these are the [id]s of all the records met so far. *)
Lemma dedup_loop_first_occurrences (key : loc → hkey) (data : list loc)
    (seen_ids : gset hkey) (earlier : list hkey) (unique_data : list loc)
    (w : world) :
  (∀ k, k ∈ seen_ids ↔ k ∈ earlier) →
  (∀ item, item ∈ data → id_key (heap w) item = Some (key item)) →
  dedup_loop (PObj <$> data) seen_ids unique_data w
  = (Ok (unique_data ++ first_occurrences_from key earlier data), w).
Proof.
  revert seen_ids earlier unique_data.
  induction data as [|item data IH]; intros seen_ids earlier unique_data Hseen Hkey.
  - simpl. by rewrite app_nil_r.
  - assert (id_key (heap w) item = Some (key item)) as Hitem
      by (apply Hkey; left).
    unfold id_key in Hitem.
    destruct ((heap w !!! item) !! "id") as [v|] eqn:Hv; [| done].
    destruct (hash_key v) as [k|] eqn:Hk; [| done].
    injection Hitem as ->.
    rewrite fmap_cons. cbn [dedup_loop first_occurrences_from].
    unfold mbind, M_bind, bind, getitem, lift. rewrite Hv, Hk.
    destruct (decide (key item ∈ seen_ids)) as [Hin|Hin];
      destruct (decide (key item ∈ earlier)) as [Hin2|Hin2];
      try (exfalso; apply Hseen in Hin || apply Hseen in Hin2; done).
    + apply IH; [| intros; apply Hkey; by right].
      intros k. rewrite elem_of_app, list_elem_of_singleton, <- Hseen.
      split; [tauto | intros [? | ->]; done].
    + rewrite (IH ({[key item]} ∪ seen_ids) (earlier ++ [key item])).
      * by rewrite <- app_assoc.
      * intros k. rewrite elem_of_union, elem_of_singleton, elem_of_app,
          list_elem_of_singleton, Hseen. tauto.
      * intros; apply Hkey; by right.
Qed.

(** C5: on records that each have an [id] (a string, a number, a Boolean or
    [null]), deduplication raises nothing, changes nothing, and returns the
    subsequence of the input made of the first record of each [id], in the
    order of the input. *)
Theorem deduplicate_first_occurrences (key : loc → hkey) (data : list loc)
    (w : world) :
  (∀ item, item ∈ data → id_key (heap w) item = Some (key item)) →
  deduplicate data w = (Ok (first_occurrences key data), w)
  ∧ sublist (first_occurrences key data) data
  ∧ NoDup (key <$> first_occurrences key data)
  ∧ (∀ k, k ∈ key <$> first_occurrences key data ↔ k ∈ key <$> data).
Proof.
  intros Hkey. split; [| apply first_occurrences_spec].
  unfold deduplicate, first_occurrences.
  rewrite (dedup_loop_first_occurrences key data ∅ [] [] w); [done | | done].
  intros k. set_solver.
Qed.

Lemma deduplicate_first_occurrences_witness :
  deduplicate [0; 1; 2]%nat duplicates_world = (Ok [0; 2]%nat, duplicates_world).
Proof.
  apply (deduplicate_first_occurrences duplicates_key [0; 1; 2]%nat
           duplicates_world).
  intros item Hitem.
  apply elem_of_cons in Hitem as [-> | Hitem]; [reflexivity |].
  apply elem_of_cons in Hitem as [-> | Hitem]; [reflexivity |].
  apply elem_of_cons in Hitem as [-> | Hitem]; [reflexivity |].
  by apply elem_of_nil in Hitem.
Defined.

(** Python's equality of the [id]s: [True] and [1] are one [id]. *)
Example deduplicate_bool_int :
  (deduplicate [0; 1]%nat
     (World {[ 0%nat := {[ "id" := JInt 1 ]}; 1%nat := {[ "id" := JBool true ]} ]}
        [] [] ∅)).1 = Ok [0%nat].
Proof. reflexivity. Qed.

(** A record without [id] makes line 174 raise [KeyError]. *)
Example deduplicate_missing_id :
  (deduplicate [0; 1]%nat
     (World {[ 0%nat := {[ "id" := JInt 1 ]}; 1%nat := {[ "summary" := JStr "B" ]} ]}
        [] [] ∅)).1 = Raise (KeyError "id").
Proof. reflexivity. Qed.

(** ** What a task touches *)

Section Frames.
Context {A B : Type}.
Variable l : loc.

Lemma frames_ret (a : A) : frames l (mret a).
Proof. by intros w. Qed.

Lemma frames_lift (o : outcome A) : frames l (lift o).
Proof. by intros w. Qed.

Lemma frames_bind (m : M A) (k : A → M B) :
  frames l m → (∀ a, frames l (k a)) → frames l (m ≫= k).
Proof.
  intros Hm Hk w. unfold mbind, M_bind, bind.
  specialize (Hm w). destruct (m w) as [[a|e] w1]; simpl in *; [| done].
  by rewrite Hk.
Qed.

Lemma frames_try_except (body : M A) (handler : exn → M B) (orelse : A → M B) :
  frames l body → (∀ e, frames l (handler e)) → (∀ a, frames l (orelse a)) →
  frames l (try_except body handler orelse).
Proof.
  intros Hb Hh Ho w. unfold try_except.
  specialize (Hb w). destruct (body w) as [[a|e] w1]; simpl in *.
  - by rewrite Ho.
  - by rewrite Hh.
Qed.

Lemma frames_getitem (item : loc) (key : string) : frames l (getitem item key).
Proof. intros w. unfold getitem. by case_match. Qed.

Lemma frames_get (item : loc) (key : string) (d : json) :
  frames l (get item key d).
Proof. by intros w. Qed.

Lemma frames_setitem (item : loc) (key : string) (v : json) :
  l ≠ item → frames l (setitem item key v).
Proof. intros Hl w. simpl. by apply lookup_insert_ne. Qed.

Lemma frames_sleep {clock : Clock} (secs : Z) : frames l (sleep secs).
Proof. intros w. unfold sleep. by case_match. Qed.

Lemma frames_print (d : diag) : frames l (print_stderr d).
Proof. by intros w. Qed.
End Frames.

Section Locals.
Context {A B : Type}.
Variable item : loc.

Lemma local_ret (a : A) : local_at item (mret a).
Proof. by intros w w2 Heq. Qed.

Lemma local_lift (o : outcome A) : local_at item (lift o).
Proof. by intros w w2 Heq. Qed.

Lemma local_bind (m : M A) (k : A → M B) :
  local_at item m → (∀ a, local_at item (k a)) → local_at item (m ≫= k).
Proof.
  intros Hm Hk w w2 Heq. unfold mbind, M_bind, bind.
  destruct (Hm w w2 Heq) as [Ho Hh].
  destruct (m w) as [[a|e] w1], (m w2) as [[a2|e2] w3]; simplify_eq/=.
  - by apply Hk.
  - done.
Qed.

Lemma local_try_except (body : M A) (handler : exn → M B) (orelse : A → M B) :
  local_at item body → (∀ e, local_at item (handler e)) →
  (∀ a, local_at item (orelse a)) →
  local_at item (try_except body handler orelse).
Proof.
  intros Hb Hh Ho w w2 Heq. unfold try_except.
  destruct (Hb w w2 Heq) as [Hr Hw].
  destruct (body w) as [[a|e] w1], (body w2) as [[a2|e2] w3]; simplify_eq/=.
  - by apply Ho.
  - by apply Hh.
Qed.

Lemma local_getitem (key : string) : local_at item (getitem item key).
Proof.
  intros w w2 Heq. unfold getitem. rewrite Heq. by case_match.
Qed.

Lemma local_get (key : string) (d : json) : local_at item (get item key d).
Proof. intros w w2 Heq. unfold get. simpl. by rewrite Heq. Qed.

Lemma local_setitem (key : string) (v : json) :
  local_at item (setitem item key v).
Proof.
  intros w w2 Heq. simpl. by rewrite !lookup_total_insert_eq, Heq.
Qed.

Lemma local_sleep {clock : Clock} (secs : Z) : local_at item (sleep secs).
Proof. intros w w2 Heq. unfold sleep. by case_match. Qed.

Lemma local_print (d : diag) : local_at item (print_stderr d).
Proof. by intros w w2 Heq. Qed.
End Locals.

Ltac step_frames :=
  repeat first
    [ apply frames_bind | apply frames_try_except | apply frames_ret
    | apply frames_lift | apply frames_getitem | apply frames_get
    | apply frames_setitem | apply frames_sleep | apply frames_print
    | progress intros | case_match | done ].

Ltac step_local :=
  repeat first
    [ apply local_bind | apply local_try_except | apply local_ret
    | apply local_lift | apply local_getitem | apply local_get
    | apply local_setitem | apply local_sleep | apply local_print
    | progress intros | case_match ].

Section InvokerFootprint.
Context `{!JsonDecoder} {clock : Clock} {fs : FileSystem}.
Variable d : Z.
Variables (chain : Chain) (item : loc) (language : string).

Lemma process_single_item_frame (l : loc) :
  l ≠ item → frames l (process_single_item d chain item language).
Proof. intros Hl. unfold process_single_item, repair. step_frames. Qed.

Lemma process_single_item_local :
  local_at item (process_single_item d chain item language).
Proof. unfold process_single_item, repair. step_local. Qed.
End InvokerFootprint.

(** ** The scheduler *)

Section Returns.
Context {A B : Type}.

Lemma returns_any (m : M A) : returns_only (λ _, True) m.
Proof. by intros w a _. Qed.

Lemma returns_ret (P : A → Prop) (a : A) : P a → returns_only P (mret a).
Proof. intros Ha w a2 [= <-]. done. Qed.

Lemma returns_bind (Q : A → Prop) (P : B → Prop) (m : M A) (k : A → M B) :
  returns_only Q m → (∀ a, Q a → returns_only P (k a)) →
  returns_only P (m ≫= k).
Proof.
  intros Hm Hk w b. unfold mbind, M_bind, bind.
  specialize (Hm w). destruct (m w) as [[a|e] w1]; [| done].
  apply Hk. by apply Hm.
Qed.

Lemma returns_try_except (Q : A → Prop) (P : B → Prop) (body : M A)
    (handler : exn → M B) (orelse : A → M B) :
  returns_only Q body → (∀ e, returns_only P (handler e)) →
  (∀ a, Q a → returns_only P (orelse a)) →
  returns_only P (try_except body handler orelse).
Proof.
  intros Hb Hh Ho w b. unfold try_except.
  specialize (Hb w). destruct (body w) as [[a|e] w1]; [| apply Hh].
  apply Ho. by apply Hb.
Qed.
End Returns.

Section SchedulerFacts.
Context `{!JsonDecoder} {clock : Clock} {fs : FileSystem}.
Variable API_DELAY_SECONDS : Z.
Variable chain : nat → Chain.
Variables (data : list loc) (language : string).

Local Abbreviation task idx item :=
  (process_single_item API_DELAY_SECONDS (chain idx) item language).

Local Abbreviation early item := (λ o : option loc, o = Some item ∨ o = None).

Lemma repair_returns (item : loc) (error_msg : string) :
  returns_only (early item) (repair API_DELAY_SECONDS item error_msg).
Proof.
  unfold repair. case_match; [| apply returns_ret; by right].
  apply (returns_try_except (early item)).
  - repeat (apply (returns_bind (λ _, True)); [apply returns_any | intros ? _]).
    apply returns_ret. by left.
  - intros e.
    repeat (apply (returns_bind (λ _, True)); [apply returns_any | intros ? _]).
    apply returns_ret. by right.
  - intros a Ha. by apply returns_ret.
Qed.

(** Lines 74 and 113: what the function returns is its argument. *)
Lemma process_single_item_returns_item (c : Chain) (item : loc) :
  returns_only (λ r, r = item)
    (process_single_item API_DELAY_SECONDS c item language).
Proof.
  unfold process_single_item.
  apply (returns_bind (early item)).
  - apply (returns_try_except (λ _, True)); [apply returns_any | |].
    + intros e. destruct e;
        try (repeat (apply (returns_bind (λ _, True)); [apply returns_any | intros ? _]);
             apply returns_ret; by right).
      apply (returns_bind (early item)); [apply repair_returns |].
      intros o [-> | ->]; [apply returns_ret; by left |].
      repeat (apply (returns_bind (λ _, True)); [apply returns_any | intros ? _]).
      apply returns_ret. by right.
    + intros a _.
      repeat (apply (returns_bind (λ _, True)); [apply returns_any | intros ? _]).
      apply returns_ret. by right.
  - intros o [-> | ->]; by apply returns_ret.
Qed.

Lemma run_workers_spec (order : list nat) (futures : gmap nat (outcome loc))
    (w : world) :
  NoDup data → NoDup order →
  ∃ futures2 w2,
    run_workers API_DELAY_SECONDS chain data language order futures w
    = (Ok futures2, w2)
    ∧ (∀ idx item, idx ∈ order → data !! idx = Some item →
         futures2 !! idx = Some (task idx item w).1
         ∧ heap w2 !!! item = heap (task idx item w).2 !!! item)
    ∧ (∀ idx, idx ∉ order → futures2 !! idx = futures !! idx)
    ∧ (∀ l, (∀ idx, idx ∈ order → data !! idx ≠ Some l) →
         heap w2 !! l = heap w !! l).
Proof.
  intros Hdata. revert futures w.
  induction order as [|idx order IH]; intros futures w Horder.
  - exists futures, w. split; [done |]. split; [| done].
    intros idx item Hin. by apply elem_of_nil in Hin.
  - apply NoDup_cons in Horder as [Hidx Horder].
    cbn [run_workers].
    destruct (data !! idx) as [item|] eqn:Hitem.
    + unfold mbind, M_bind, bind, run_future.
      destruct (task idx item w) as [o w1] eqn:Hrun.
      destruct (IH (<[idx := o]> futures) w1 Horder)
        as (futures2 & w2 & -> & Hdone & Hkeep & Hframe).
      exists futures2, w2. split; [done |].
      assert (∀ j it, j ≠ idx → data !! j = Some it →
                heap w1 !! it = heap w !! it) as Hother.
      { intros j it Hj Hit.
        assert (it ≠ item) as Hne.
        { intros ->. apply Hj. exact (NoDup_lookup _ _ _ _ Hdata Hit Hitem). }
        pose proof (process_single_item_frame API_DELAY_SECONDS (chain idx)
                      item language it Hne w) as Hf.
        by rewrite Hrun in Hf. }
      split; [| split].
      * intros j it Hj Hit. apply elem_of_cons in Hj as [-> | Hj].
        -- simplify_eq. rewrite Hkeep by done.
           rewrite lookup_insert_eq, Hrun. split; [done |]. simpl.
           rewrite !lookup_total_alt. rewrite Hframe; [done |].
           intros j Hj Hjit.
           pose proof (NoDup_lookup _ _ _ _ Hdata Hjit Hitem). by subst.
        -- assert (j ≠ idx) as Hne by (by intros ->).
           destruct (Hdone j it Hj Hit) as [Hfut Hheap].
           assert (heap w1 !!! it = heap w !!! it) as Heq.
           { rewrite !lookup_total_alt. by rewrite (Hother j it). }
           destruct (process_single_item_local API_DELAY_SECONDS (chain j)
                       it language w1 w Heq) as [Ho Hh].
           rewrite Hfut, Hheap. by rewrite Ho, Hh.
      * intros j Hj. apply not_elem_of_cons in Hj as [Hne Hj].
        rewrite Hkeep by done. by apply lookup_insert_ne.
      * intros l Hl. rewrite Hframe.
        -- assert (l ≠ item) as Hne.
           { intros ->. by apply (Hl idx); [left |]. }
           pose proof (process_single_item_frame API_DELAY_SECONDS (chain idx)
                         item language l Hne w) as Hf.
           by rewrite Hrun in Hf.
        -- intros j Hj. apply Hl. by right.
    + destruct (IH futures w Horder) as (futures2 & w2 & -> & Hdone & Hkeep & Hframe).
      exists futures2, w2. split; [done |]. split; [| split].
      * intros j it Hj Hit. apply elem_of_cons in Hj as [-> | Hj]; [congruence |].
        by apply Hdone.
      * intros j Hj. apply not_elem_of_cons in Hj as [Hne Hj]. by apply Hkeep.
      * intros l Hl. apply Hframe. intros j Hj. apply Hl. by right.
Qed.

(** The pool finishes every task it was given, whatever the tasks do. *)
Lemma run_workers_total (order : list nat)
    (futures : gmap nat (outcome loc)) (w : world) :
  futures_ok data futures →
  ∃ futures2 w2,
    run_workers API_DELAY_SECONDS chain data language order futures w
    = (Ok futures2, w2)
    ∧ futures_ok data futures2
    ∧ (∀ idx, is_Some (futures !! idx) → is_Some (futures2 !! idx))
    ∧ (∀ idx, idx ∈ order → is_Some (data !! idx) → is_Some (futures2 !! idx)).
Proof.
  revert futures w. induction order as [|idx order IH]; intros futures w Hok.
  - exists futures, w. repeat split; try done.
    intros idx Hin. by apply elem_of_nil in Hin.
  - cbn [run_workers]. destruct (data !! idx) as [item|] eqn:Hitem.
    + unfold mbind, M_bind, bind, run_future.
      destruct (task idx item w) as [o w1] eqn:Hrun.
      destruct (IH (<[idx := o]> futures) w1)
        as (futures2 & w2 & -> & Hok2 & Hdom & Hall).
      { intros j o2 it r Hj Hit ->.
        destruct (decide (j = idx)) as [-> |].
        - rewrite lookup_insert_eq in Hj. simplify_eq.
          apply (process_single_item_returns_item (chain idx) item w).
          by rewrite Hrun.
        - rewrite lookup_insert_ne in Hj by done. by eapply Hok. }
      exists futures2, w2. repeat split; try done.
      * intros j Hj. apply Hdom.
        destruct (decide (j = idx)) as [-> |];
          [by rewrite lookup_insert_eq | by rewrite lookup_insert_ne].
      * intros j Hj Hsome. apply elem_of_cons in Hj as [-> | Hj]; [| by apply Hall].
        apply Hdom. by rewrite lookup_insert_eq.
    + destruct (IH futures w Hok) as (futures2 & w2 & -> & Hok2 & Hdom & Hall).
      exists futures2, w2. repeat split; try done.
      intros j Hj Hsome. apply elem_of_cons in Hj as [-> | Hj]; [| by apply Hall].
      rewrite Hitem in Hsome. by destruct Hsome.
Qed.

(** The loop of lines 137-149 assigns [data[idx]] at [idx], for a future
    that returned as for one that raised, and touches no record. *)
Lemma collect_assign_slots (futures : gmap nat (outcome loc))
    (order : list nat) (processed_data : list (option loc)) (w : world) :
  futures_ok data futures →
  (∀ idx, idx ∈ order → is_Some (data !! idx) ∧ is_Some (futures !! idx)) →
  ∃ w2,
    collect data futures order processed_data w
    = (Ok (assign_slots data order processed_data), w2)
    ∧ heap w2 = heap w ∧ slept w2 = slept w ∧ files w2 = files w.
Proof.
  intros Hok. revert processed_data w.
  induction order as [|idx order IH]; intros pd w Hall.
  - by exists w.
  - destruct (Hall idx) as [[item Hitem] [o Ho]]; [by left |].
    cbn [collect]. unfold assign_slots. cbn [foldl].
    rewrite Ho. destruct o as [r|e].
    + rewrite (Hok idx (Ok r) item r Ho Hitem eq_refl), <- Hitem.
      apply IH. intros j Hj. apply Hall. by right.
    + unfold mbind, M_bind, bind, print_stderr.
      destruct (IH (<[idx := data !! idx]> pd)
                  (World (heap w) (slept w) (stderr w ++ [ItemException idx e])
                     (files w)))
        as (w2 & -> & Hh & Hs & Hf).
      { intros j Hj. apply Hall. by right. }
      by exists w2.
Qed.

Lemma assign_slots_length (order : list nat) (pd : list (option loc)) :
  length (assign_slots data order pd) = length pd.
Proof.
  revert pd. induction order as [|idx order IH]; intros pd; [done |].
  unfold assign_slots in *. cbn [foldl]. by rewrite IH, length_insert.
Qed.

Lemma assign_slots_lookup (order : list nat) (pd : list (option loc)) (i : nat) :
  assign_slots data order pd !! i
  = if decide (i ∈ order ∧ (i < length pd)%nat) then Some (data !! i)
    else pd !! i.
Proof.
  revert pd. induction order as [|idx order IH]; intros pd.
  - unfold assign_slots. cbn [foldl].
    case_decide as Hi; [| done]. destruct Hi as [Hi _].
    by apply elem_of_nil in Hi.
  - unfold assign_slots in *. cbn [foldl].
    rewrite IH, length_insert, list_lookup_insert.
    repeat case_decide; try done; destruct_and?; subst; try done;
      exfalso; set_solver.
Qed.

Lemma assign_slots_all (order : list nat) :
  order ≡ₚ seq 0 (length data) →
  assign_slots data order (replicate (length data) None) = Some <$> data.
Proof.
  intros Hperm. apply list_eq. intros i.
  rewrite assign_slots_lookup, length_replicate, list_lookup_fmap.
  case_decide as Hi.
  - destruct Hi as [_ Hi]. apply lookup_lt_is_Some in Hi as [item ->]. done.
  - destruct (decide (i < length data)%nat) as [Hlt | Hge].
    + exfalso. apply Hi. split; [| done].
      rewrite Hperm. apply elem_of_seq. lia.
    + rewrite lookup_ge_None_2 by (rewrite length_replicate; lia).
      by rewrite lookup_ge_None_2 by lia.
Qed.

Lemma slot_writes_all (futures : gmap nat (outcome loc)) (order : list nat) :
  (∀ idx, idx ∈ order → is_Some (futures !! idx)) →
  slot_writes futures order = order.
Proof.
  unfold slot_writes. induction order as [|idx order IH]; intros Hall; [done |].
  rewrite filter_cons_True by (apply Hall; by left).
  f_equal. apply IH. intros j Hj. apply Hall. by right.
Qed.

(** The run of [process_all_items] in one statement: the pool finishes
    every task, the loop fills [processed_data] with [data] itself, and
    only the pool touches the records. *)
Lemma process_all_items_run (model_name : string) (max_workers : Z)
    (order : list nat) (w : world) :
  0 < max_workers → order ≡ₚ seq 0 (length data) →
  ∃ futures w1 w2,
    run_workers API_DELAY_SECONDS chain data language order ∅
      (World (heap w) (slept w) (stderr w ++ [ConnectTo model_name]) (files w))
    = (Ok futures, w1)
    ∧ process_all_items API_DELAY_SECONDS chain data model_name language
        max_workers order w = (Ok (Some <$> data), w2)
    ∧ heap w2 = heap w1
    ∧ futures_ok data futures
    ∧ (∀ idx, idx ∈ order → is_Some (futures !! idx)).
Proof.
  intros Hmax Hperm. unfold process_all_items.
  unfold mbind at 1. unfold M_bind, bind at 1. unfold print_stderr at 1.
  cbv beta iota. rewrite (proj2 (Z.leb_gt max_workers 0) Hmax).
  unfold mbind, M_bind, bind.
  destruct (run_workers_total order ∅
              (World (heap w) (slept w) (stderr w ++ [ConnectTo model_name])
                 (files w)))
    as (futures & w1 & Hrun & Hok & _ & Hall).
  { intros idx o item r Hempty. by rewrite lookup_empty in Hempty. }
  assert (∀ idx, idx ∈ order → is_Some (data !! idx)) as Hrange.
  { intros idx Hidx. rewrite Hperm in Hidx. apply elem_of_seq in Hidx.
    apply lookup_lt_is_Some. lia. }
  rewrite Hrun.
  destruct (collect_assign_slots futures order
              (replicate (length data) None) w1 Hok)
    as (w2 & Hcollect & Hheap & _); [by auto |].
  rewrite assign_slots_all in Hcollect by done.
  exists futures, w1, w2. repeat split; auto.
Qed.

(** C1: for every list of records and every completion order, the result
    has one slot for each record, each slot is assigned once, at the index
    of its task, and each slot ends up holding the record of its index:
    the one that the task returned, or [data[idx]] when the task raised. *)
Theorem process_all_items_fills_every_slot (model_name : string)
    (max_workers : Z) (order : list nat) (w : world) :
  0 < max_workers → order ≡ₚ seq 0 (length data) →
  ∃ futures out w1 w2,
    run_workers API_DELAY_SECONDS chain data language order ∅
      (World (heap w) (slept w) (stderr w ++ [ConnectTo model_name]) (files w))
    = (Ok futures, w1)
    ∧ process_all_items API_DELAY_SECONDS chain data model_name language
        max_workers order w = (Ok out, w2)
    ∧ length out = length data
    ∧ slot_writes futures order ≡ₚ seq 0 (length data)
    ∧ ∀ idx item, data !! idx = Some item →
        out !! idx = Some (Some item)
        ∧ (futures !! idx = Some (Ok item)
           ∨ ∃ e, futures !! idx = Some (Raise e)).
Proof.
  intros Hmax Hperm.
  destruct (process_all_items_run model_name max_workers order w Hmax Hperm)
    as (futures & w1 & w2 & Hrun & Hall & _ & Hok & Hsome).
  exists futures, (Some <$> data), w1, w2.
  split; [done |]. split; [done |].
  split; [by rewrite length_fmap |].
  split; [by rewrite slot_writes_all |].
  intros idx item Hitem. split; [by rewrite list_lookup_fmap, Hitem |].
  destruct (Hsome idx) as [[r|e] Ho].
  - rewrite Hperm. apply elem_of_seq. apply lookup_lt_Some in Hitem. lia.
  - left. by rewrite Ho, (Hok idx (Ok r) item r Ho Hitem eq_refl).
  - right. eauto.
Qed.

(** The slots are the records of [data] in the order of [data], and each
    record is what its own task makes of it. *)
Lemma process_all_items_records (model_name : string)
    (max_workers : Z) (order : list nat) (w : world) :
  0 < max_workers → order ≡ₚ seq 0 (length data) →
  ∃ w2,
    process_all_items API_DELAY_SECONDS chain data model_name language
      max_workers order w = (Ok (Some <$> data), w2)
    ∧ (NoDup data → ∀ idx item, data !! idx = Some item →
         heap w2 !!! item = heap (task idx item w).2 !!! item).
Proof.
  intros Hmax Hperm.
  destruct (process_all_items_run model_name max_workers order w Hmax Hperm)
    as (futures & w1 & w2 & Hrun & Hall & Hheap & _).
  exists w2. split; [done |]. intros Hdata idx item Hitem.
  assert (NoDup order) as Horder by (rewrite Hperm; apply NoDup_seq).
  destruct (run_workers_spec order ∅
              (World (heap w) (slept w) (stderr w ++ [ConnectTo model_name])
                 (files w)) Hdata Horder)
    as (futures2 & w3 & Hrun2 & Hdone & _).
  rewrite Hrun in Hrun2. simplify_eq.
  destruct (Hdone idx item) as [_ Hrec]; [| done |].
  { rewrite Hperm. apply elem_of_seq. apply lookup_lt_Some in Hitem. lia. }
  rewrite Hheap, Hrec.
  by apply process_single_item_local.
Qed.

(** C2: for every completion order the result lists the records in the
    order of the input, and the record at an index is what its own task
    makes of it, which does not depend on the order. *)
Theorem process_all_items_keeps_input_order (model_name : string)
    (max_workers : Z) (order : list nat) (w : world) :
  0 < max_workers → order ≡ₚ seq 0 (length data) →
  ∃ w2,
    process_all_items API_DELAY_SECONDS chain data model_name language
      max_workers order w = (Ok (Some <$> data), w2)
    ∧ (NoDup data → ∀ idx item, data !! idx = Some item →
         heap w2 !!! item = heap (task idx item w).2 !!! item).
Proof. apply process_all_items_records. Qed.

(** X19: two completion orders give the same lines in the output file. *)
Corollary process_all_items_same_output (model_name : string)
    (max_workers : Z) (order1 order2 : list nat) (w : world) :
  0 < max_workers → NoDup data →
  order1 ≡ₚ seq 0 (length data) → order2 ≡ₚ seq 0 (length data) →
  ∃ w1 w2,
    process_all_items API_DELAY_SECONDS chain data model_name language
      max_workers order1 w = (Ok (Some <$> data), w1)
    ∧ process_all_items API_DELAY_SECONDS chain data model_name language
        max_workers order2 w = (Ok (Some <$> data), w2)
    ∧ dump_slot (heap w1) <$> (Some <$> data)
      = dump_slot (heap w2) <$> (Some <$> data).
Proof.
  intros Hmax Hdata Hp1 Hp2.
  destruct (process_all_items_records model_name max_workers
              order1 w Hmax Hp1) as (w1 & Hr1 & Hh1).
  destruct (process_all_items_records model_name max_workers
              order2 w Hmax Hp2) as (w2 & Hr2 & Hh2).
  exists w1, w2. split; [done |]. split; [done |].
  apply list_eq. intros i. rewrite !list_lookup_fmap.
  destruct (data !! i) as [item|] eqn:Hitem; [| done]. simpl.
  by rewrite (Hh1 Hdata i item Hitem), (Hh2 Hdata i item Hitem).
Qed.
End SchedulerFacts.

(** ** The fallback of the scheduler *)

Section Fallback.
Context `{!JsonDecoder} {clock : Clock}.
Variable API_DELAY_SECONDS : Z.
Hypothesis delay_nonneg : 0 ≤ API_DELAY_SECONDS.
Hypothesis delay_max : API_DELAY_SECONDS ≤ sleep_max.
Variable chain : nat → Chain.
Variables (data : list loc) (language : string).

Local Abbreviation task idx item :=
  (process_single_item API_DELAY_SECONDS (chain idx) item language).



End Fallback.

(** ** The driver *)

(** The removal cannot fail; it leaves no file under the path, and it
    leaves every other file as it is. *)
Lemma remove_if_exists_spec {fs : FileSystem} (path : string) (w : world) :
  ∃ w2, remove_if_exists path w = (Ok (), w2)
        ∧ heap w2 = heap w
        ∧ slept w2 = slept w
        ∧ path_exists path w2 = false
        ∧ ∀ name, realpath path ≠ Ok name → files w2 !! name = files w !! name.
Proof.
  unfold remove_if_exists, path_exists.
  destruct (realpath path) as [target|e]; [| by exists w].
  destruct (files w !! target) as [old|] eqn:Hold.
  - eexists. split; [reflexivity |]. split; [done |]. split; [done |].
    simpl. split.
    + rewrite lookup_delete_eq. apply bool_decide_eq_false. by intros [? [=]].
    + intros name Hname. apply lookup_delete_ne. congruence.
  - exists w. split; [done |]. split; [done |]. split; [done |].
    split; [| done]. rewrite Hold. apply bool_decide_eq_false. by intros [? [=]].
Qed.

(** Every decoded line is a new object, different from all the others. *)
Lemma alloc_all_spec (lines : list json) (w : world) :
  (∀ v, v ∈ lines → ∃ r, v = JDict r) →
  ∃ locs w2,
    alloc_all lines w = (Ok (PObj <$> locs), w2)
    ∧ files w2 = files w
    ∧ length locs = length lines
    ∧ NoDup locs
    ∧ (∀ l, l ∈ locs → heap w !! l = None)
    ∧ (∀ l r, heap w !! l = Some r → heap w2 !! l = Some r)
    ∧ (∀ i l, locs !! i = Some l → JDict <$> (heap w2 !! l) = lines !! i).
Proof.
  revert w. induction lines as [|v lines IH]; intros w Hdict.
  - exists [], w. repeat split; try done.
    + constructor.
    + intros l Hl. by apply elem_of_nil in Hl.
  - destruct (Hdict v) as [r ->]; [by left |].
    cbn [alloc_all]. unfold mbind, M_bind, bind, alloc.
    assert (heap w !! fresh (dom (heap w)) = None) as Hfresh.
    { apply not_elem_of_dom. apply is_fresh. }
    generalize dependent (fresh (dom (heap w))). intros l Hfresh.
    destruct (IH (World (<[l := r]> (heap w)) (slept w) (stderr w) (files w)))
      as (locs & w2 & -> & Hfiles & Hlen & Hnodup & Hnew & Hkeep & Hcontent).
    { intros v Hv. apply Hdict. by right. }
    simpl in *. exists (l :: locs), w2. split; [done |].
    split; [done |]. split; [simpl; by f_equal |]. split; [| split; [| split]].
    + constructor; [| done]. intros Hl. apply Hnew in Hl.
      by rewrite lookup_insert_eq in Hl.
    + intros l2 Hl2. apply elem_of_cons in Hl2 as [-> | Hl2]; [done |].
      specialize (Hnew l2 Hl2).
      destruct (decide (l = l2)) as [<- |];
        [by rewrite lookup_insert_eq in Hnew
        | by rewrite lookup_insert_ne in Hnew].
    + intros l2 r2 Hl2. apply Hkeep.
      rewrite lookup_insert_ne; [done |]. intros <-. congruence.
    + intros [|i] l2 Hl2; simpl in *.
      * injection Hl2 as <-. by rewrite (Hkeep l r) by apply lookup_insert_eq.
      * by apply Hcontent.
Qed.

(** *** The scheduler on three records *)

Lemma pool_order_permutation : [2; 0; 1]%nat ≡ₚ seq 0 (length [0; 1; 2]%nat).
Proof. exact (Permutation_cons_append [0; 1]%nat 2%nat). Defined.

Lemma pool_data_NoDup : NoDup [0; 1; 2]%nat.
Proof. exact (NoDup_seq 0 3). Defined.

Lemma process_all_items_fills_every_slot_witness :
  ∃ futures out w1 w2,
    run_workers (H := constants_loads)
        (clock := year_clock) 5 pool_chain [0; 1; 2]%nat "Chinese"
      [2; 0; 1]%nat ∅
      (World (heap pool_world) (slept pool_world)
         (stderr pool_world ++ [ConnectTo "deepseek-chat"]) (files pool_world))
    = (Ok futures, w1)
    ∧ process_all_items (H := constants_loads)
        (clock := year_clock) 5 pool_chain [0; 1; 2]%nat
        "deepseek-chat" "Chinese" 4 [2; 0; 1]%nat pool_world = (Ok out, w2)
    ∧ length out = length [0; 1; 2]%nat
    ∧ slot_writes futures [2; 0; 1]%nat ≡ₚ seq 0 (length [0; 1; 2]%nat)
    ∧ ∀ idx item, [0; 1; 2]%nat !! idx = Some item →
        out !! idx = Some (Some item)
        ∧ (futures !! idx = Some (Ok item)
           ∨ ∃ e, futures !! idx = Some (Raise e)).
Proof.
  apply (process_all_items_fills_every_slot (H := constants_loads)
      (clock := year_clock) 5 pool_chain
           [0; 1; 2]%nat "Chinese" "deepseek-chat" 4 [2; 0; 1]%nat pool_world).
  - lia.
  - exact pool_order_permutation.
Defined.

Lemma process_all_items_keeps_input_order_witness :
  ∃ w2,
    process_all_items (H := constants_loads)
        (clock := year_clock) 5 pool_chain [0; 1; 2]%nat
      "deepseek-chat" "Chinese" 4 [2; 0; 1]%nat pool_world
    = (Ok (Some <$> [0; 1; 2]%nat), w2)
    ∧ (NoDup [0; 1; 2]%nat → ∀ idx item, [0; 1; 2]%nat !! idx = Some item →
         heap w2 !!! item
         = heap (process_single_item (H := constants_loads)
             (clock := year_clock) 5 (pool_chain idx)
                   item "Chinese" pool_world).2 !!! item).
Proof.
  apply (process_all_items_keeps_input_order (H := constants_loads)
      (clock := year_clock) 5 pool_chain
           [0; 1; 2]%nat "Chinese" "deepseek-chat" 4 [2; 0; 1]%nat pool_world).
  - lia.
  - exact pool_order_permutation.
Defined.

(** The same on the values: the slots are the three records in the order
    of the input although the third task completes first, and the sleeps
    and the diagnostics follow the completion order. *)
Example process_all_items_example :
  let r := process_all_items (H := constants_loads)
      (clock := year_clock) 5 pool_chain [0; 1; 2]%nat
             "deepseek-chat" "Chinese" 4 [2; 0; 1]%nat pool_world in
  r.1 = Ok [Some 0; Some 1; Some 2]%nat
  ∧ slept r.2 = [5; 5; 5]
  ∧ (heap r.2 !!! 0%nat) !! "AI"
    = Some (model_dump (mkStructure "short" "why" "how" "what" "so"))
  ∧ (heap r.2 !!! 1%nat) !! "AI" = None
  ∧ (heap r.2 !!! 2%nat) !! "AI"
    = Some (unexpected_sentinel (OtherException "Connection error.")).
Proof. vm_compute. repeat split; reflexivity. Qed.


(** * Further properties *)

(** ** The rate-limited invoker, edge cases *)

Section InvokerEdges.
Context `{!JsonDecoder} {clock : Clock}.
Variable API_DELAY_SECONDS : Z.
Variables (item : loc) (language : string).

(** X1: on a record without [id], a parse failure whose repair fails at
    [json.loads] makes line 76 raise [KeyError]: the exception leaves
    [process_single_item], and no field is written, no delay is paid and
    nothing is printed.  This holds for every delay. *)
Theorem process_single_item_missing_id_escapes (delay : Z) (chain : Chain)
    (w : world) (content : json) (msg : string) (json_e : exn) :
  (heap w !!! item) !! "summary" = Some content →
  chain language content = Raise (OutputParserException msg) →
  PyStr.contains marker msg = true →
  json_loads (escape_backslashes (extract_json_str msg)) = Raise json_e →
  (heap w !!! item) !! "id" = None →
  process_single_item delay chain item language w = (Raise (KeyError "id"), w).
Proof.
  intros Hs Hc Hm Hj Hi. run_invoker. rewrite Hs, Hc. simpl.
  rewrite Hm, Hj. simpl. by rewrite Hi.
Qed.

(** X2: under a delay that [time.sleep] accepts, a record without
    [summary] is never sent to the service: whatever the chain would
    answer, the record gets the object of lines 90-96 whose [motivation]
    is the text of the [KeyError], the delay is paid once and one
    diagnostic is printed. *)
Theorem process_single_item_missing_summary (chain : Chain) (w : world) :
  0 ≤ API_DELAY_SECONDS ≤ sleep_max →
  (heap w !!! item) !! "summary" = None →
  process_single_item API_DELAY_SECONDS chain item language w
  = (Ok item,
     annotated w item
       (JDict {[ "tldr" := JStr "Unexpected Error";
                 "motivation" := JStr "'summary'";
                 "method" := JStr "N/A";
                 "result" := JStr "N/A";
                 "conclusion" := JStr "N/A" ]})
       [API_DELAY_SECONDS]
       [UnexpectedError (default (JStr "unknown") ((heap w !!! item) !! "id"))
          (KeyError "summary")]).
Proof.
  intros [Hmin Hmax] Hs.
  rewrite (invoke_no_summary _ (sleep_in_range _ Hmin Hmax) _ _ _ _ Hs).
  unfold unexpected_sentinel, sentinel. by rewrite insert_empty.
Qed.

(** X3: whatever happens, [process_single_item] changes no field of the
    record other than [AI]. *)
Theorem process_single_item_keeps_other_fields (chain : Chain) (w : world)
    (k : string) :
  k ≠ "AI" →
  (heap (process_single_item API_DELAY_SECONDS chain item language w).2
     !!! item) !! k
  = (heap w !!! item) !! k.
Proof.
  intros Hk. destruct (sleep_error API_DELAY_SECONDS) as [se|] eqn:Hd.
  - destruct (refused_cases API_DELAY_SECONDS chain item language se w Hd)
      as [(e & ai & ds & ->) | [-> _]]; [| done].
    cbn [snd]. by apply annotated_other_field.
  - destruct (invoke_cases API_DELAY_SECONDS Hd chain item language w)
      as [(ai & zs & ds & ->) | [-> _]]; [| done].
    cbn [snd]. by apply annotated_other_field.
Qed.

(** X4: the previous value of [AI] plays no part: on a record that already
    has an [AI] field the function returns or raises as it does without
    it, and when it returns the record is the same. *)
Theorem process_single_item_overwrites_AI (chain : Chain) (w : world)
    (old : json) :
  let w_old := World (<[item := <["AI" := old]> (heap w !!! item)]> (heap w))
                 (slept w) (stderr w) (files w) in
  (process_single_item API_DELAY_SECONDS chain item language w_old).1
  = (process_single_item API_DELAY_SECONDS chain item language w).1
  ∧ ((process_single_item API_DELAY_SECONDS chain item language w).1 = Ok item →
     heap (process_single_item API_DELAY_SECONDS chain item language w_old).2
       !!! item
     = heap (process_single_item API_DELAY_SECONDS chain item language w).2
       !!! item).
Proof.
  intros w_old.
  assert (heap w_old !!! item = <["AI" := old]> (heap w !!! item)) as Hrec
    by (unfold w_old; simpl; by rewrite lookup_total_insert_eq).
  clearbody w_old.
  assert (∀ k, k ≠ "AI" →
            (heap w_old !!! item) !! k = (heap w !!! item) !! k) as Hsame
    by (intros k Hk; rewrite Hrec; by apply lookup_insert_ne).
  assert (∀ ai, <["AI" := ai]> (heap w_old !!! item)
                = <["AI" := ai]> (heap w !!! item)) as Hann
    by (intros ai; rewrite Hrec; apply insert_insert_eq).
  assert (∀ ai zs ds zs2 ds2,
            heap (annotated w_old item ai zs ds) !!! item
            = heap (annotated w item ai zs2 ds2) !!! item) as Hfinal.
  { intros. unfold annotated. simpl. rewrite !lookup_total_insert_eq.
    apply Hann. }
  destruct ((heap w !!! item) !! "summary") as [content|] eqn:Hs.
  2: { assert ((heap w_old !!! item) !! "summary" = None) as Hs2
         by (rewrite Hsame; done).
       destruct (sleep_error API_DELAY_SECONDS) as [se|] eqn:Hd.
       - rewrite (refused_no_summary _ chain item language se w Hd Hs).
         by rewrite (refused_no_summary _ chain item language se w_old Hd Hs2).
       - rewrite (invoke_no_summary _ Hd chain item language w Hs).
         rewrite (invoke_no_summary _ Hd chain item language w_old Hs2).
         split; [done |]. intros _. apply Hfinal. }
  assert ((heap w_old !!! item) !! "summary" = Some content) as Hs2
    by (rewrite Hsame; done).
  destruct (chain language content) as [response|e] eqn:Hc.
  { destruct (sleep_error API_DELAY_SECONDS) as [se|] eqn:Hd.
    - rewrite (refused_success _ chain item language se w _ _ Hd Hs Hc).
      by rewrite (refused_success _ chain item language se w_old _ _ Hd Hs2 Hc).
    - rewrite (invoke_success _ Hd chain item language w _ _ Hs Hc).
      rewrite (invoke_success _ Hd chain item language w_old _ _ Hs2 Hc).
      split; [done |]. intros _. apply Hfinal. }
  destruct (is_parse_failure e) eqn:He.
  2: { destruct (sleep_error API_DELAY_SECONDS) as [se|] eqn:Hd.
       - rewrite (refused_generic_error _ chain item language se w _ _ Hd Hs Hc He).
         by rewrite (refused_generic_error _ chain item language se w_old _ _
                       Hd Hs2 Hc He).
       - rewrite (invoke_generic _ Hd chain item language w _ _ Hs Hc He).
         rewrite (invoke_generic _ Hd chain item language w_old _ _ Hs2 Hc He).
         split; [done |]. intros _. apply Hfinal. }
  destruct e; try done.
  destruct (PyStr.contains marker msg) eqn:Hm.
  2: { destruct (sleep_error API_DELAY_SECONDS) as [se|] eqn:Hd.
       - rewrite (refused_no_marker _ chain item language se w _ _ Hd Hs Hc Hm).
         by rewrite (refused_no_marker _ chain item language se w_old _ _
                       Hd Hs2 Hc Hm).
       - rewrite (invoke_no_marker _ Hd chain item language w _ _ Hs Hc Hm).
         rewrite (invoke_no_marker _ Hd chain item language w_old _ _ Hs2 Hc Hm).
         split; [done |]. intros _. apply Hfinal. }
  assert ((heap w_old !!! item) !! "id" = (heap w !!! item) !! "id") as Hid
    by (by apply Hsame).
  destruct (json_loads (escape_backslashes (extract_json_str msg)))
    as [v|json_e] eqn:Hj.
  { destruct (sleep_error API_DELAY_SECONDS) as [se|] eqn:Hd.
    - destruct ((heap w !!! item) !! "id") as [id|] eqn:Hi.
      + rewrite (refused_repaired _ chain item language se w _ _ _ _
                   Hd Hs Hc Hm Hj Hi).
        by rewrite (refused_repaired _ chain item language se w_old _ _ _ _
                      Hd Hs2 Hc Hm Hj Hid).
      + rewrite (refused_repaired_no_id _ chain item language se w _ _ _
                   Hd Hs Hc Hm Hj Hi).
        by rewrite (refused_repaired_no_id _ chain item language se w_old _ _ _
                      Hd Hs2 Hc Hm Hj Hid).
    - rewrite (invoke_repaired _ Hd chain item language w _ _ _ Hs Hc Hm Hj).
      rewrite (invoke_repaired _ Hd chain item language w_old _ _ _ Hs2 Hc Hm Hj).
      split; [done |]. intros _. apply Hfinal. }
  destruct ((heap w !!! item) !! "id") as [id|] eqn:Hi.
  - destruct (sleep_error API_DELAY_SECONDS) as [se|] eqn:Hd.
    + rewrite (refused_unrepairable _ chain item language se w _ _ _ _
                 Hd Hs Hc Hm Hj Hi).
      by rewrite (refused_unrepairable _ chain item language se w_old _ _ _ _
                    Hd Hs2 Hc Hm Hj Hid).
    + rewrite (invoke_unrepairable _ Hd chain item language w _ _ _ _
                 Hs Hc Hm Hj Hi).
      rewrite (invoke_unrepairable _ Hd chain item language w_old _ _ _ _
                 Hs2 Hc Hm Hj Hid).
      split; [done |]. intros _. apply Hfinal.
  - rewrite (invoke_unrepairable_no_id _ chain item language w _ _ _
               Hs Hc Hm Hj Hi).
    rewrite (invoke_unrepairable_no_id _ chain item language w_old _ _ _
               Hs2 Hc Hm Hj Hid).
    split; [done |]. intros [=].
Qed.

End InvokerEdges.

(** ** The repair of the error text *)

Lemma str_app_nil_r (s : string) : s +:+ EmptyString = s.
Proof. induction s as [|c s IH]; [done |]. rewrite str_app_cons. by f_equal. Qed.

Lemma str_drop_app (a b : string) : PyStr.drop (String.length a) (a +:+ b) = b.
Proof. induction a as [|c a IH]; [by destruct b | done]. Qed.

Lemma lstrip_app_space (ws s : string) :
  all_space ws = true → PyStr.lstrip (ws +:+ s) = PyStr.lstrip s.
Proof.
  induction ws as [|c ws IH]; [done |]. cbn [all_space].
  intros [Hc Hws]%andb_prop. rewrite str_app_cons. cbn [PyStr.lstrip].
  rewrite Hc. auto.
Qed.

Lemma lstrip_length (s : string) :
  (String.length (PyStr.lstrip s) ≤ String.length s)%nat.
Proof.
  induction s as [|c s IH]; [done |]. simpl.
  destruct (PyStr.isspace c); simpl; lia.
Qed.

Lemma lstrip_fixed_app (p s : string) :
  p ≠ EmptyString → PyStr.lstrip p = p → PyStr.lstrip (p +:+ s) = p +:+ s.
Proof.
  destruct p as [|c p]; [done |]. intros _ Hp. simpl in Hp.
  rewrite str_app_cons. simpl.
  destruct (PyStr.isspace c); [| done].
  pose proof (lstrip_length p) as Hlen. rewrite Hp in Hlen. simpl in Hlen. lia.
Qed.

Lemma rstrip_space (ws : string) :
  all_space ws = true → PyStr.rstrip ws = EmptyString.
Proof.
  induction ws as [|c ws IH]; [done |]. simpl.
  intros [Hc Hws]%andb_prop. by rewrite IH, Hc.
Qed.

Lemma rstrip_app (x y : string) :
  PyStr.rstrip y ≠ EmptyString →
  PyStr.rstrip (x +:+ y) = x +:+ PyStr.rstrip y.
Proof.
  intros Hy. induction x as [|c x IH]; [done |].
  rewrite !str_app_cons. simpl. rewrite IH.
  destruct (x +:+ PyStr.rstrip y) eqn:Hx; [| done].
  destruct x; [| done]. simpl in Hx. done.
Qed.

Lemma rstrip_app_space (s ws : string) :
  all_space ws = true → PyStr.rstrip (s +:+ ws) = PyStr.rstrip s.
Proof.
  intros Hws. induction s as [|c s IH].
  - simpl. by rewrite rstrip_space.
  - rewrite str_app_cons. simpl. by rewrite IH.
Qed.

Ltac peel Hr a :=
  destruct a as [|? a];
  [simpl in Hr; discriminate | simpl in Hr; injection Hr as -> Hr].

(** An occurrence of the trailer cannot start inside [a] and end inside a
    following trailer: the trailer ends with the only [N] it has. *)
Lemma trailer_no_overlap (c : ascii) (a b : string) :
  String.prefix trailer (String c a) = false →
  String.prefix trailer (String c a +:+ trailer +:+ b) = false.
Proof.
  intros Hp.
  destruct (String.prefix trailer (String c a +:+ trailer +:+ b)) eqn:Hq; [| done].
  exfalso. apply str_prefix_split in Hq as [r Hr].
  assert (String.prefix trailer (String c a) = true) as Hp2; [| congruence].
  clear Hp. unfold trailer in *. simpl in Hr. injection Hr as -> Hr.
  do 17 peel Hr a.
  apply (str_prefix_app "are not valid JSON" a).
Qed.

Lemma marker_no_overlap (c : ascii) (a b : string) :
  String.prefix marker (String c a) = false →
  String.prefix marker (String c a +:+ marker +:+ b) = false.
Proof.
  intros Hp.
  destruct (String.prefix marker (String c a +:+ marker +:+ b)) eqn:Hq; [| done].
  exfalso. apply str_prefix_split in Hq as [r Hr].
  assert (String.prefix marker (String c a) = true) as Hp2; [| congruence].
  clear Hp. unfold marker in *. simpl in Hr. injection Hr as -> Hr.
  do 28 peel Hr a.
  apply (str_prefix_app "Function Structure arguments:" a).
Qed.

Lemma before_trailer (a b : string) :
  PyStr.contains trailer a = false →
  PyStr.before trailer (a +:+ trailer +:+ b) = a.
Proof.
  intros Hc. induction a as [|c a IH].
  - change (EmptyString +:+ trailer +:+ b) with (trailer +:+ b).
    destruct (trailer +:+ b) eqn:Heq; [done |].
    cbn [PyStr.before]. rewrite <- Heq. by rewrite str_prefix_app.
  - apply contains_false_inv in Hc as [Hp Hc].
    change (String c a +:+ trailer +:+ b) with (String c (a +:+ trailer +:+ b)).
    cbn [PyStr.before].
    change (String c (a +:+ trailer +:+ b)) with (String c a +:+ trailer +:+ b).
    rewrite (trailer_no_overlap _ _ _ Hp). by rewrite IH.
Qed.

Lemma after_marker (a b : string) :
  PyStr.contains marker a = false →
  PyStr.after marker (a +:+ marker +:+ b) = Some b.
Proof.
  intros Hc. induction a as [|c a IH].
  - change (EmptyString +:+ marker +:+ b) with (marker +:+ b).
    destruct (marker +:+ b) eqn:Heq; [done |].
    cbn [PyStr.after]. rewrite <- Heq. rewrite str_prefix_app.
    by rewrite str_drop_app.
  - apply contains_false_inv in Hc as [Hp Hc].
    change (String c a +:+ marker +:+ b) with (String c (a +:+ marker +:+ b)).
    cbn [PyStr.after].
    change (String c (a +:+ marker +:+ b)) with (String c a +:+ marker +:+ b).
    rewrite (marker_no_overlap _ _ _ Hp). by rewrite IH.
Qed.

(** X6: from an error text of the form
    [... Function Structure arguments: <payload> are not valid JSON ...],
    with any whitespace around the payload, line 65 extracts exactly the
    payload. *)
Theorem extract_json_str_payload (pre ws1 payload ws2 rest : string) :
  PyStr.contains marker pre = false →
  all_space ws1 = true → all_space ws2 = true →
  payload ≠ EmptyString →
  PyStr.lstrip payload = payload → PyStr.rstrip payload = payload →
  PyStr.contains trailer (payload +:+ ws2) = false →
  let error_msg :=
    pre +:+ marker +:+ ws1 +:+ payload +:+ ws2 +:+ trailer +:+ rest in
  PyStr.contains marker error_msg = true
  ∧ extract_json_str error_msg = payload.
Proof.
  intros Hpre Hws1 Hws2 Hne Hl Hr Htr error_msg.
  unfold extract_json_str, PyStr.contains, error_msg.
  rewrite (after_marker pre _ Hpre). split; [done |]. simpl default.
  unfold PyStr.strip at 2.
  rewrite lstrip_app_space by done.
  rewrite lstrip_fixed_app by done.
  assert (∃ t, PyStr.rstrip (trailer +:+ rest) = trailer +:+ t) as [t Ht].
  { change (trailer +:+ rest)
      with ("are not valid JSO" +:+ String "N" rest).
    rewrite rstrip_app.
    - simpl PyStr.rstrip. destruct (PyStr.rstrip rest); eauto.
    - simpl. by destruct (PyStr.rstrip rest). }
  rewrite <- (str_app_assoc payload ws2 (trailer +:+ rest)).
  rewrite rstrip_app
    by (rewrite Ht; unfold trailer; rewrite str_app_cons; done).
  rewrite Ht, before_trailer by done.
  unfold PyStr.strip. rewrite lstrip_fixed_app by done.
  by rewrite rstrip_app_space.
Qed.

(** ** The doubling of the backslashes *)

Lemma escape_cons (c : ascii) (s : string) :
  escape_backslashes (String c s)
  = (if Ascii.eqb c (ascii_of_N 92) then backslash +:+ backslash
     else String c EmptyString) +:+ escape_backslashes s.
Proof.
  unfold escape_backslashes, PyStr.replace, backslash.
  cbn [PyStr.replace_from String.prefix].
  destruct (ascii_dec (ascii_of_N 92) c) as [<- | Hne].
  - rewrite Ascii.eqb_refl. by destruct s.
  - destruct (Ascii.eqb_spec c (ascii_of_N 92)) as [-> |]; [done |].
    done.
Qed.

(** X7: line 67 works character by character: it distributes over
    concatenation, turns one backslash into two and keeps a text without
    backslashes as it is. *)
Theorem escape_backslashes_app (a b : string) :
  escape_backslashes (a +:+ b) = escape_backslashes a +:+ escape_backslashes b
  ∧ escape_backslashes backslash = backslash +:+ backslash
  ∧ (PyStr.contains backslash a = false → escape_backslashes a = a).
Proof.
  split; [| split; [done |]].
  - induction a as [|c a IH]; [done |].
    rewrite str_app_cons, !escape_cons, IH. by rewrite str_app_assoc.
  - intros Hc. by apply replace_absent.
Qed.

(** ** Deduplication, further properties *)

Lemma first_occurrences_from_distinct (key : loc → hkey) (earlier : list hkey)
    (data : list loc) :
  NoDup (key <$> data) →
  (∀ item, item ∈ data → key item ∉ earlier) →
  first_occurrences_from key earlier data = data.
Proof.
  revert earlier. induction data as [|item data IH]; intros earlier Hnd Hnew;
    [done |].
  rewrite fmap_cons in Hnd. apply NoDup_cons in Hnd as [Hitem Hnd].
  cbn [first_occurrences_from].
  rewrite decide_False by (apply Hnew; left).
  f_equal. apply IH; [done |].
  intros x Hx Hin. apply elem_of_app in Hin as [Hin | Hin].
  - by apply (Hnew x); [right |].
  - apply list_elem_of_singleton in Hin. apply Hitem. rewrite <- Hin.
    by apply list_elem_of_fmap_2.
Qed.

(** X8: records whose [id]s are pairwise different all survive
    deduplication, in their order. *)
Theorem deduplicate_distinct_ids (key : loc → hkey) (data : list loc)
    (w : world) :
  (∀ item, item ∈ data → id_key (heap w) item = Some (key item)) →
  NoDup (key <$> data) →
  deduplicate data w = (Ok data, w).
Proof.
  intros Hkey Hnd. unfold deduplicate.
  rewrite (dedup_loop_first_occurrences key data ∅ [] [] w); [| set_solver | done].
  rewrite first_occurrences_from_distinct; [done | done |].
  intros item _ Hin. by apply elem_of_nil in Hin.
Qed.

(** X9: deduplicating twice is deduplicating once. *)
Theorem deduplicate_idempotent (key : loc → hkey) (data : list loc)
    (w : world) :
  (∀ item, item ∈ data → id_key (heap w) item = Some (key item)) →
  ∃ unique_data,
    deduplicate data w = (Ok unique_data, w)
    ∧ deduplicate unique_data w = (Ok unique_data, w).
Proof.
  intros Hkey. exists (first_occurrences key data). unfold deduplicate.
  rewrite (dedup_loop_first_occurrences key data ∅ [] [] w);
    [| set_solver | done].
  split; [done |].
  rewrite (dedup_loop_first_occurrences key (first_occurrences key data)
             ∅ [] [] w); [| set_solver |].
  - simpl. rewrite first_occurrences_from_distinct; [done | |].
    + apply first_occurrences_from_NoDup.
    + intros item _ Hin. by apply elem_of_nil in Hin.
  - intros item Hitem. apply Hkey.
    exact (elem_of_sublist _ _ _ Hitem (first_occurrences_from_sublist key [] data)).
Qed.

(** The loop passes over a prefix of records with [id]s without raising. *)
Lemma dedup_loop_prefix (key : loc → hkey) (before : list loc)
    (rest : list pyval) (seen_ids : gset hkey) (unique_data : list loc)
    (w : world) :
  (∀ item, item ∈ before → id_key (heap w) item = Some (key item)) →
  ∃ seen_ids2 unique_data2,
    dedup_loop ((PObj <$> before) ++ rest) seen_ids unique_data w
    = dedup_loop rest seen_ids2 unique_data2 w.
Proof.
  revert seen_ids unique_data.
  induction before as [|item before IH]; intros seen_ids unique_data Hkey.
  - by exists seen_ids, unique_data.
  - assert (id_key (heap w) item = Some (key item)) as Hitem
      by (apply Hkey; left).
    unfold id_key in Hitem.
    destruct ((heap w !!! item) !! "id") as [v|] eqn:Hv; [| done].
    destruct (hash_key v) as [k|] eqn:Hk; [| done].
    rewrite fmap_cons. cbn [dedup_loop app].
    unfold mbind, M_bind, bind, getitem, lift.
    rewrite Hv, Hk.
    case_decide; apply IH; intros x Hx; apply Hkey; by right.
Qed.

(** X10: the first record without an [id] makes deduplication raise
    [KeyError], and the first record whose [id] is a list or an object
    makes it raise [TypeError]; nothing has been changed by then. *)
Theorem deduplicate_bad_id_raises (key : loc → hkey) (before after : list loc)
    (item : loc) (w : world) :
  (∀ x, x ∈ before → id_key (heap w) x = Some (key x)) →
  id_key (heap w) item = None →
  ∃ e, deduplicate (before ++ item :: after) w = (Raise e, w)
       ∧ ((heap w !!! item) !! "id" = None → e = KeyError "id")
       ∧ (is_Some ((heap w !!! item) !! "id") → ∃ msg, e = TypeError msg).
Proof.
  intros Hkey Hbad. unfold deduplicate. rewrite fmap_app, fmap_cons.
  destruct (dedup_loop_prefix key before (PObj item :: (PObj <$> after)) ∅ []
              w Hkey) as (seen & unique & ->).
  cbn [dedup_loop]. unfold mbind, M_bind, bind, getitem, lift.
  unfold id_key in Hbad.
  destruct ((heap w !!! item) !! "id") as [v|] eqn:Hv.
  - destruct (hash_key v) as [k|e] eqn:Hk; [done |].
    exists e. split; [done |]. split; [done |]. intros _.
    destruct v; simpl in Hk; simplify_eq; eauto.
  - exists (KeyError "id"). split; [done |]. split; [done |].
    intros [? [=]].
Qed.

(** ** The output path, further properties *)

Lemma str_length_app (a b : string) :
  String.length (a +:+ b) = (String.length a + String.length b)%nat.
Proof.
  induction a as [|c a IH]; [done |].
  rewrite str_app_cons. simpl. by rewrite IH.
Qed.

Lemma str_prefix_length (p s : string) :
  String.prefix p s = true → (String.length p ≤ String.length s)%nat.
Proof.
  intros [r ->]%str_prefix_split. rewrite str_length_app. lia.
Qed.

(** A replacement by a text that is at least as long never shortens. *)
Lemma replace_from_length (old new : string) (skip : nat) (s : string) :
  (1 ≤ String.length old ≤ String.length new)%nat →
  (String.length s ≤ String.length (PyStr.replace_from old new skip s) + skip)%nat.
Proof.
  intros Hlen. revert skip. induction s as [|c s IH]; intros skip; [simpl; lia |].
  cbn [PyStr.replace_from]. destruct skip as [|k].
  - destruct (String.prefix old (String c s)) eqn:Hp.
    + rewrite str_length_app. specialize (IH (String.length old - 1)%nat).
      simpl. lia.
    + specialize (IH 0%nat). simpl. lia.
  - specialize (IH k). simpl. lia.
Qed.

Lemma replace_grows (old new s : string) :
  (1 ≤ String.length old < String.length new)%nat →
  PyStr.contains old s = true →
  (String.length s < String.length (PyStr.replace old new s))%nat.
Proof.
  intros Hlen. unfold PyStr.replace, PyStr.contains.
  induction s as [|c s IH]; intros Hc.
  - cbn [PyStr.after] in Hc. destruct old; simpl in *; [lia | done].
  - cbn [PyStr.after PyStr.replace_from] in *.
    destruct (String.prefix old (String c s)) eqn:Hp.
    + rewrite str_length_app.
      pose proof (replace_from_length old new (String.length old - 1) s
                    ltac:(lia)).
      simpl. lia.
    + specialize (IH Hc). simpl. lia.
Qed.

(** X12: a path that contains [".jsonl"] is never its own output path:
    the output path is another text, and a longer one.  (Whether the two
    paths lead to two files is for the file system to say.) *)
Theorem target_file_differs (data language : string) :
  PyStr.contains ".jsonl" data = true →
  target_file data language ≠ data
  ∧ (String.length data < String.length (target_file data language))%nat.
Proof.
  intros Hc.
  assert (String.length data < String.length (target_file data language))%nat
    as Hlt.
  { unfold target_file. apply replace_grows; [| done].
    rewrite !str_length_app. simpl. lia. }
  split; [| done]. intros Heq. rewrite Heq in Hlt. lia.
Qed.

(** ** No step but the two of [main] touches the files *)

Section KeepsFiles.
Context {A B : Type}.

Lemma keeps_files_ret (a : A) : keeps_files (mret a).
Proof. by intros w. Qed.

Lemma keeps_files_raise (e : exn) : keeps_files (raise (A := A) e).
Proof. by intros w. Qed.

Lemma keeps_files_lift (o : outcome A) : keeps_files (lift o).
Proof. by intros w. Qed.

Lemma keeps_files_bind (m : M A) (k : A → M B) :
  keeps_files m → (∀ a, keeps_files (k a)) → keeps_files (m ≫= k).
Proof.
  intros Hm Hk w. unfold mbind, M_bind, bind.
  specialize (Hm w). destruct (m w) as [[a|e] w1]; simpl in *; [| done].
  by rewrite Hk.
Qed.

Lemma keeps_files_try_except (body : M A) (handler : exn → M B)
    (orelse : A → M B) :
  keeps_files body → (∀ e, keeps_files (handler e)) →
  (∀ a, keeps_files (orelse a)) →
  keeps_files (try_except body handler orelse).
Proof.
  intros Hb Hh Ho w. unfold try_except.
  specialize (Hb w). destruct (body w) as [[a|e] w1]; simpl in *.
  - by rewrite Ho.
  - by rewrite Hh.
Qed.

Lemma keeps_files_run_future (m : M A) :
  keeps_files m → keeps_files (run_future m).
Proof.
  intros Hm w. unfold run_future. specialize (Hm w).
  by destruct (m w) as [o w1].
Qed.
End KeepsFiles.

Lemma keeps_files_getitem (item : loc) (key : string) :
  keeps_files (getitem item key).
Proof. intros w. unfold getitem. by case_match. Qed.

Lemma keeps_files_get (item : loc) (key : string) (d : json) :
  keeps_files (get item key d).
Proof. by intros w. Qed.

Lemma keeps_files_setitem (item : loc) (key : string) (v : json) :
  keeps_files (setitem item key v).
Proof. by intros w. Qed.

Lemma keeps_files_sleep {clock : Clock} (secs : Z) : keeps_files (sleep secs).
Proof. intros w. unfold sleep. by case_match. Qed.

Lemma keeps_files_print (d : diag) : keeps_files (print_stderr d).
Proof. by intros w. Qed.

Ltac step_keeps_files :=
  repeat first
    [ apply keeps_files_bind | apply keeps_files_try_except
    | apply keeps_files_ret | apply keeps_files_raise | apply keeps_files_lift
    | apply keeps_files_getitem | apply keeps_files_get
    | apply keeps_files_setitem | apply keeps_files_sleep
    | apply keeps_files_print | apply keeps_files_run_future
    | progress intros | case_match ].

Lemma keeps_files_dedup_loop (data : list pyval) (seen_ids : gset hkey)
    (unique_data : list loc) :
  keeps_files (dedup_loop data seen_ids unique_data).
Proof.
  revert seen_ids unique_data. induction data as [|[item|v] data IH];
    intros seen_ids unique_data; cbn [dedup_loop]; step_keeps_files; apply IH.
Qed.

Lemma keeps_files_alloc_all (lines : list json) : keeps_files (alloc_all lines).
Proof.
  induction lines as [|v lines IH]; cbn [alloc_all]; [by intros w |].
  destruct v;
    try (apply keeps_files_bind; [apply IH |]; intros ls;
         apply keeps_files_ret).
  apply keeps_files_bind; [by intros w |]. intros l.
  apply keeps_files_bind; [apply IH |]. intros ls. apply keeps_files_ret.
Qed.

Section SchedulerFiles.
Context `{!JsonDecoder} {clock : Clock} {fs : FileSystem}.
Variable API_DELAY_SECONDS : Z.
Variable chain : nat → Chain.

Lemma keeps_files_process_single_item (c : Chain) (item : loc)
    (language : string) :
  keeps_files (process_single_item API_DELAY_SECONDS c item language).
Proof. unfold process_single_item, repair. step_keeps_files. Qed.

Lemma keeps_files_run_workers (data : list loc) (language : string)
    (order : list nat) (futures : gmap nat (outcome loc)) :
  keeps_files (run_workers API_DELAY_SECONDS chain data language order futures).
Proof.
  revert futures. induction order as [|idx order IH]; intros futures;
    cbn [run_workers]; [apply keeps_files_ret |].
  case_match; [| apply IH].
  apply keeps_files_bind;
    [apply keeps_files_run_future, keeps_files_process_single_item |].
  intros fut. apply IH.
Qed.

Lemma keeps_files_collect (data : list loc) (futures : gmap nat (outcome loc))
    (order : list nat) (processed_data : list (option loc)) :
  keeps_files (collect data futures order processed_data).
Proof.
  revert processed_data. induction order as [|idx order IH];
    intros processed_data; cbn [collect]; [apply keeps_files_ret |].
  repeat case_match; try apply IH.
  apply keeps_files_bind; [apply keeps_files_print |]. intros _. apply IH.
Qed.

Lemma keeps_files_process_all_items (data : list loc)
    (model_name language : string) (max_workers : Z) (order : list nat) :
  keeps_files (process_all_items API_DELAY_SECONDS chain data model_name
                 language max_workers order).
Proof.
  unfold process_all_items.
  apply keeps_files_bind; [apply keeps_files_print |]. intros _.
  case_match; [apply keeps_files_raise |].
  apply keeps_files_bind; [apply keeps_files_run_workers |].
  intros futures. apply keeps_files_collect.
Qed.

(** X17: [process_all_items] reads and writes no file, whatever the
    number of workers, the completion order and the outcome of the tasks. *)
Theorem process_all_items_keeps_files (data : list loc)
    (model_name language : string) (max_workers : Z) (order : list nat)
    (w : world) :
  files (process_all_items API_DELAY_SECONDS chain data model_name language
           max_workers order w).2 = files w.
Proof. apply keeps_files_process_all_items. Qed.

(** X15: whatever happens in a run, [main] creates, changes or removes no
    file other than the one that the output path leads to. *)
Theorem main_touches_only_target (data_path : string) (max_workers : Z)
    (environ : gmap string string) (order : list nat) (w : world)
    (name : string) :
  realpath (target_file data_path (default "Chinese" (environ !! "LANGUAGE")))
  ≠ Ok name →
  files (main API_DELAY_SECONDS chain data_path max_workers environ order w).2
    !! name
  = files w !! name.
Proof.
  intros Hname. unfold main.
  set (target := target_file data_path (default "Chinese" (environ !! "LANGUAGE")))
    in *.
  unfold mbind, M_bind, bind.
  destruct (remove_if_exists_spec target w) as (wa & Hrm & _ & _ & _ & Hfa).
  rewrite Hrm. rewrite <- (Hfa name Hname).
  assert (keeps_files (read_jsonl data_path)) as Hread.
  { intros w0. unfold read_jsonl. repeat case_match; try done.
    apply keeps_files_alloc_all. }
  specialize (Hread wa).
  destruct (read_jsonl data_path wa) as [[data|e] w1]; simpl in Hread;
    [| simpl; by rewrite Hread].
  pose proof (keeps_files_dedup_loop data ∅ [] w1) as Hdedup.
  destruct (dedup_loop data ∅ [] w1) as [[unique|e] w2]; simpl in Hdedup;
    [| simpl; by rewrite Hdedup, Hread].
  unfold print_stderr at 1.
  pose proof (keeps_files_process_all_items unique
                (default "deepseek-chat" (environ !! "MODEL_NAME"))
                (default "Chinese" (environ !! "LANGUAGE")) max_workers order
                (World (heap w2) (slept w2) (stderr w2 ++ [OpenFile data_path])
                   (files w2))) as Hpai.
  destruct (process_all_items _ _ _ _ _ _ _ _) as [[out|e] w3]; simpl in *;
    [| by rewrite Hpai, Hdedup, Hread].
  unfold write_jsonl. fold target.
  destruct (realpath target) as [tname|e] eqn:Ht; simpl.
  - rewrite lookup_insert_ne by congruence. by rewrite Hpai, Hdedup, Hread.
  - by rewrite Hpai, Hdedup, Hread.
Qed.

(** X14: when the input path leads to no file, [main] raises the
    exception of [open] ([FileNotFoundError] for a file that is not there);
    an output file of an earlier run has been removed by then, and no call
    has been made. *)
Theorem main_missing_input (data_path : string) (max_workers : Z)
    (environ : gmap string string) (order : list nat) (w : world) :
  path_exists data_path w = false →
  let target :=
    target_file data_path (default "Chinese" (environ !! "LANGUAGE")) in
  let r := main API_DELAY_SECONDS chain data_path max_workers environ order w in
  r.1 = Raise (open_error data_path)
  ∧ path_exists target r.2 = false
  ∧ slept r.2 = slept w
  ∧ heap r.2 = heap w.
Proof.
  intros Hnone target r. unfold r, main. fold target.
  unfold mbind, M_bind, bind.
  destruct (remove_if_exists_spec target w)
    as (wa & Hrm & Hheap & Hslept & Hgone & Hfa).
  rewrite Hrm. unfold read_jsonl, open_error.
  unfold path_exists in Hnone.
  destruct (realpath data_path) as [name|e] eqn:Hd; [| done].
  apply bool_decide_eq_false in Hnone.
  assert (files w !! name = None) as Hw
    by (destruct (files w !! name); [exfalso; eauto | done]).
  assert (files wa !! name = None) as Hwa.
  { unfold path_exists in Hgone.
    destruct (realpath target) as [tname|e] eqn:Ht; [| by rewrite Hfa].
    destruct (decide (tname = name)) as [-> | Hne];
      [| rewrite Hfa; [done | congruence]].
    apply bool_decide_eq_false in Hgone.
    destruct (files wa !! name); [exfalso; eauto | done]. }
  by rewrite Hwa.
Qed.

End SchedulerFiles.

(** ** The pacing of a whole run *)

Section Pacing.
Context `{!JsonDecoder} {clock : Clock} {fs : FileSystem}.
Variable API_DELAY_SECONDS : Z.
Hypothesis delay_nonneg : 0 ≤ API_DELAY_SECONDS.
Hypothesis delay_max : API_DELAY_SECONDS ≤ sleep_max.
Variable chain : nat → Chain.
Variables (data : list loc) (language : string).

Local Abbreviation task idx item :=
  (process_single_item API_DELAY_SECONDS (chain idx) item language).
Local Abbreviation delay_ok := (sleep_in_range _ delay_nonneg delay_max).

(** One call pays the delay once or twice when it returns and not at all
    when it raises; a record with an [id] makes it return. *)
Lemma invoke_sleeps (c : Chain) (item : loc) (w : world) :
  ∃ zs,
    slept (process_single_item API_DELAY_SECONDS c item language w).2
    = slept w ++ zs
    ∧ Forall (eq API_DELAY_SECONDS) zs
    ∧ (length zs ≤ 2)%nat
    ∧ (is_Some ((heap w !!! item) !! "id") → (1 ≤ length zs)%nat).
Proof.
  assert (∀ ai ds, ∃ zs,
            slept (annotated w item ai [API_DELAY_SECONDS] ds) = slept w ++ zs
            ∧ Forall (eq API_DELAY_SECONDS) zs
            ∧ (length zs ≤ 2)%nat
            ∧ (is_Some ((heap w !!! item) !! "id") → (1 ≤ length zs)%nat))
    as Honce.
  { intros ai ds. exists [API_DELAY_SECONDS].
    split; [done |]. split; [by repeat constructor |]. simpl. split; lia. }
  destruct ((heap w !!! item) !! "summary") as [content|] eqn:Hs.
  2: { rewrite (invoke_no_summary _ delay_ok c item language w Hs).
       apply Honce. }
  destruct (c language content) as [response|e] eqn:Hc.
  { rewrite (invoke_success _ delay_ok c item language w _ _ Hs Hc).
    exists [API_DELAY_SECONDS; API_DELAY_SECONDS].
    split; [done |]. split; [by repeat constructor |]. simpl. split; lia. }
  destruct (is_parse_failure e) eqn:He.
  2: { rewrite (invoke_generic _ delay_ok c item language w _ _ Hs Hc He).
       apply Honce. }
  destruct e; try done.
  destruct (PyStr.contains marker msg) eqn:Hm.
  2: { rewrite (invoke_no_marker _ delay_ok c item language w _ _ Hs Hc Hm).
       apply Honce. }
  destruct (json_loads (escape_backslashes (extract_json_str msg)))
    as [v|json_e] eqn:Hj.
  { rewrite (invoke_repaired _ delay_ok c item language w _ _ _ Hs Hc Hm Hj).
    apply Honce. }
  destruct ((heap w !!! item) !! "id") as [id|] eqn:Hi.
  - rewrite (invoke_unrepairable _ delay_ok c item language w _ _ _ _
               Hs Hc Hm Hj Hi).
    apply Honce.
  - rewrite (invoke_unrepairable_no_id _ c item language w _ _ _ Hs Hc Hm Hj Hi).
    exists (@nil Z). rewrite app_nil_r.
    split; [done |]. split; [constructor |]. split; [simpl; lia |].
    intros [? [=]].
Qed.

(** A call leaves the [id] of every record where it is. *)
Lemma invoke_keeps_ids (c : Chain) (item : loc) (w : world) :
  have_ids data (heap w) →
  have_ids data (heap (process_single_item API_DELAY_SECONDS c item language w).2).
Proof.
  intros Hids x Hx. specialize (Hids x Hx).
  destruct (decide (x = item)) as [-> | Hne].
  - destruct (invoke_cases API_DELAY_SECONDS delay_ok c item language w)
      as [(ai & zs & ds & ->) | [-> _]]; [| done].
    cbn [snd]. by rewrite annotated_other_field.
  - rewrite lookup_total_alt.
    rewrite (process_single_item_frame API_DELAY_SECONDS c item language x Hne w).
    by rewrite <- lookup_total_alt.
Qed.

Lemma run_workers_sleeps (order : list nat)
    (futures : gmap nat (outcome loc)) (w : world) :
  Forall (λ idx, idx < length data)%nat order →
  ∃ futures2 w2 zs,
    run_workers API_DELAY_SECONDS chain data language order futures w
    = (Ok futures2, w2)
    ∧ slept w2 = slept w ++ zs
    ∧ Forall (eq API_DELAY_SECONDS) zs
    ∧ (length zs ≤ 2 * length order)%nat
    ∧ (have_ids data (heap w) → (length order ≤ length zs)%nat).
Proof.
  revert futures w. induction order as [|idx order IH]; intros futures w Hrange.
  - exists futures, w, (@nil Z). rewrite app_nil_r.
    split; [done |]. split; [done |]. split; [constructor |]. simpl. split; lia.
  - apply Forall_cons in Hrange as [Hidx Hrange].
    apply lookup_lt_is_Some in Hidx as [item Hitem].
    cbn [run_workers]. rewrite Hitem.
    unfold mbind, M_bind, bind, run_future.
    destruct (invoke_sleeps (chain idx) item w) as (zs1 & Hs1 & Hall1 & Hle1 & Hge1).
    pose proof (invoke_keeps_ids (chain idx) item w) as Hids1.
    destruct (task idx item w) as [o w1]. simpl in *.
    destruct (IH (<[idx := o]> futures) w1 Hrange)
      as (futures2 & w2 & zs2 & -> & Hs2 & Hall2 & Hle2 & Hge2).
    exists futures2, w2, (zs1 ++ zs2). split; [done |].
    split; [by rewrite Hs2, Hs1, app_assoc |].
    split; [by apply Forall_app |].
    rewrite length_app. split; [lia |].
    intros Hids.
    assert (is_Some ((heap w !!! item) !! "id")) as Hid.
    { apply Hids. by eapply list_elem_of_lookup_2. }
    specialize (Hge1 Hid). specialize (Hge2 (Hids1 Hids)). lia.
Qed.

Lemma collect_keeps_slept (futures : gmap nat (outcome loc))
    (order : list nat) (processed_data : list (option loc)) (w : world) :
  slept (collect data futures order processed_data w).2 = slept w.
Proof.
  revert processed_data w. induction order as [|idx order IH];
    intros processed_data w; cbn [collect]; [done |].
  repeat case_match; try apply IH.
  unfold mbind, M_bind, bind, print_stderr. by rewrite IH.
Qed.

(** X18: under a delay that [time.sleep] accepts, a run over [n] records
    pays the delay at most [2 n] times, and at least [n] times when every
    record has an [id]; every sleep has the configured length. *)
Theorem process_all_items_sleep_budget (model_name : string)
    (max_workers : Z) (order : list nat) (w : world) :
  0 < max_workers → order ≡ₚ seq 0 (length data) →
  ∃ zs,
    slept (process_all_items API_DELAY_SECONDS chain data model_name language
             max_workers order w).2 = slept w ++ zs
    ∧ Forall (eq API_DELAY_SECONDS) zs
    ∧ (length zs ≤ 2 * length data)%nat
    ∧ (have_ids data (heap w) → (length data ≤ length zs)%nat).
Proof.
  intros Hmax Hperm. unfold process_all_items.
  unfold mbind at 1. unfold M_bind, bind at 1. unfold print_stderr at 1.
  cbv beta iota. rewrite (proj2 (Z.leb_gt max_workers 0) Hmax).
  unfold mbind, M_bind, bind.
  assert (length order = length data) as Hlen
    by (rewrite Hperm; apply length_seq).
  destruct (run_workers_sleeps order ∅
              (World (heap w) (slept w) (stderr w ++ [ConnectTo model_name])
                 (files w)))
    as (futures & w1 & zs & -> & Hs & Hall & Hle & Hge).
  { apply Forall_forall. intros idx Hidx. rewrite Hperm in Hidx.
    apply elem_of_seq in Hidx. lia. }
  exists zs. rewrite collect_keeps_slept, Hs. simpl.
  split; [done |]. split; [done |]. rewrite <- Hlen. split; [done |].
  intros Hids. by apply Hge.
Qed.

End Pacing.

(** ** A whole run *)

Section WholeRun.
Context `{!JsonDecoder} {clock : Clock} {fs : FileSystem}.
Variable API_DELAY_SECONDS : Z.
Hypothesis delay_range : 0 ≤ API_DELAY_SECONDS ≤ sleep_max.
Variable chain : nat → Chain.

(** X16: the input path leads to a file whose lines are objects with
    [id]s, the output path leads to another file, and [time.sleep] accepts
    the delay.  Then [main] ends normally for every completion order, the
    input file is as it was, and the output file has, for each record that
    deduplication retains and in that order, one line: a line of the
    input, with an [AI] field and with all its other fields as they
    were. *)
Theorem main_output_annotated (data_path : string) (max_workers : Z)
    (environ : gmap string string) (w : world) (input output : string)
    (lines : list json) :
  let language := default "Chinese" (environ !! "LANGUAGE") in
  let target := target_file data_path language in
  0 < max_workers →
  realpath data_path = Ok input →
  realpath target = Ok output →
  output ≠ input →
  files w !! input = Some lines →
  (∀ v, v ∈ lines →
     ∃ r id k, v = JDict r ∧ r !! "id" = Some id ∧ hash_key id = Ok k) →
  ∃ (data unique_data : list loc) (w1 : world),
    read_jsonl data_path (remove_if_exists target w).2 = (Ok (PObj <$> data), w1)
    ∧ deduplicate data w1 = (Ok unique_data, w1)
    ∧ ∀ order, order ≡ₚ seq 0 (length unique_data) →
        ∃ w2 out,
          main API_DELAY_SECONDS chain data_path max_workers environ order w
          = (Ok (), w2)
          ∧ files w2 !! input = Some lines
          ∧ files w2 !! output = Some out
          ∧ length out = length unique_data
          ∧ ∀ i l, unique_data !! i = Some l →
              ∃ r, out !! i = Some (JDict r)
                   ∧ JDict (heap w1 !!! l) ∈ lines
                   ∧ is_Some (r !! "AI")
                   ∧ ∀ k, k ≠ "AI" → r !! k = (heap w1 !!! l) !! k.
Proof.
  intros language target Hmax Hin Hout Hne Hfile Hlines.
  destruct delay_range as [delay_min delay_max].
  pose proof (sleep_in_range _ delay_min delay_max) as delay_ok.
  destruct (remove_if_exists_spec target w)
    as (wa & Hrm & Hheap & _ & _ & Hfiles).
  rewrite Hrm. simpl.
  assert (files wa !! input = Some lines) as Hfile2.
  { rewrite Hfiles; [done |]. rewrite Hout. congruence. }
  destruct (alloc_all_spec lines wa)
    as (data & w1 & Halloc & Hf1 & Hlen & Hnodup & Hnew & Hkeep & Hcontent).
  { intros v Hv. destruct (Hlines v Hv) as (r & _ & _ & -> & _). eauto. }
  assert (∀ item, item ∈ data →
            JDict (heap w1 !!! item) ∈ lines
            ∧ ∃ id k, (heap w1 !!! item) !! "id" = Some id ∧ hash_key id = Ok k)
    as Hrecord.
  { intros item Hitem. apply list_elem_of_lookup in Hitem as [i Hi].
    specialize (Hcontent i item Hi).
    destruct (lines !! i) as [v|] eqn:Hv.
    2: { apply lookup_ge_None in Hv. apply lookup_lt_Some in Hi. lia. }
    assert (v ∈ lines) as Hvin by (by eapply list_elem_of_lookup_2).
    destruct (Hlines v Hvin) as (r & id & k & -> & Hid & Hk).
    destruct (heap w1 !! item) as [r2|] eqn:Hr2; [| done].
    simplify_eq/=. rewrite lookup_total_alt, Hr2. simpl. eauto. }
  set (key := λ l : loc, default HNone (id_key (heap w1) l)).
  assert (∀ item, item ∈ data → id_key (heap w1) item = Some (key item)) as Hkey.
  { intros item Hitem. destruct (Hrecord item Hitem) as (_ & id & k & Hid & Hk).
    unfold key, id_key. by rewrite Hid, Hk. }
  pose proof (first_occurrences_from_sublist key [] data) as Hsub.
  fold (first_occurrences key data) in Hsub.
  exists data, (first_occurrences key data), w1.
  assert (deduplicate data w1 = (Ok (first_occurrences key data), w1)) as Hdedup.
  { unfold deduplicate, first_occurrences.
    rewrite (dedup_loop_first_occurrences key data ∅ [] [] w1); [done | | done].
    intros k. set_solver. }
  split; [by unfold read_jsonl; rewrite Hin, Hfile2 |].
  split; [done |].
  intros order Hperm.
  set (wp := World (heap w1) (slept w1) (stderr w1 ++ [OpenFile data_path])
               (files w1)).
  destruct (process_all_items_records API_DELAY_SECONDS chain
              (first_occurrences key data) language
              (default "deepseek-chat" (environ !! "MODEL_NAME")) max_workers
              order wp Hmax Hperm)
    as (w4 & Hrun & Hrecs).
  pose proof (keeps_files_process_all_items API_DELAY_SECONDS chain
                (first_occurrences key data)
                (default "deepseek-chat" (environ !! "MODEL_NAME")) language
                max_workers order wp) as Hkeepf.
  rewrite Hrun in Hkeepf. simpl in Hkeepf.
  unfold main. fold language. fold target.
  unfold mbind, M_bind, bind. rewrite Hrm.
  unfold read_jsonl. rewrite Hin, Hfile2, Halloc.
  unfold deduplicate in Hdedup. rewrite Hdedup.
  unfold print_stderr at 1. fold wp. rewrite Hrun.
  unfold write_jsonl. rewrite Hout.
  eexists _, _. split; [reflexivity |]. simpl.
  split; [rewrite lookup_insert_ne by done; by rewrite Hkeepf, Hf1 |].
  split; [apply lookup_insert_eq |].
  split; [by rewrite !length_fmap |].
  intros i l Hl.
  assert (l ∈ data) as Hldata.
  { eapply elem_of_sublist; [| exact Hsub]. by eapply list_elem_of_lookup_2. }
  destruct (Hrecord l Hldata) as (Hline & id & k & Hid & Hk).
  exists (heap w4 !!! l).
  split; [by rewrite !list_lookup_fmap, Hl |].
  split; [done |].
  rewrite (Hrecs (sublist_NoDup _ _ Hnodup Hsub) i l Hl).
  destruct (invoke_cases API_DELAY_SECONDS delay_ok (chain i) l language wp)
    as [(ai & zs & ds & ->) | [_ Hnone]].
  - cbn [snd]. rewrite annotated_AI. split; [eauto |].
    intros k2 Hk2. by rewrite annotated_other_field.
  - simpl in Hnone. congruence.
Qed.

End WholeRun.

(** ** The driver on paths that lead elsewhere *)

(** The output path leads to the file that the input path leads to: the
    removal of line 161 removes the input, and line 166 fails. *)
Lemma main_removes_aliased_input `{!JsonDecoder} {clock : Clock}
    {fs : FileSystem} (delay : Z) (chain : nat → Chain) (data_path : string)
    (max_workers : Z) (environ : gmap string string) (order : list nat)
    (w : world) (name : string) (lines : list json) :
  realpath data_path = Ok name →
  realpath (target_file data_path (default "Chinese" (environ !! "LANGUAGE")))
  = Ok name →
  files w !! name = Some lines →
  main delay chain data_path max_workers environ order w
  = (Raise (FileNotFoundError data_path),
     World (heap w) (slept w)
       (stderr w ++ [RemovedExisting
                       (target_file data_path
                          (default "Chinese" (environ !! "LANGUAGE")))])
       (delete name (files w))).
Proof.
  intros Hd Ht Hf. unfold main.
  unfold mbind, M_bind, bind, remove_if_exists, read_jsonl, print_stderr.
  rewrite Ht, Hf. simpl. by rewrite Hd, lookup_delete_eq.
Qed.

Example main_aliased_paths_example :
  let r := main (H := constants_loads) (clock := year_clock)
             (fs := aliasing_fs) 5 pool_chain "x.jsonl/../in.txt" 4 ∅ [0%nat]
             aliasing_world in
  r.1 = Raise (FileNotFoundError "x.jsonl/../in.txt")
  ∧ files r.2 !! "in.txt" = None.
Proof. vm_compute. split; reflexivity. Qed.

(** The directory of the output path is missing: the records are
    processed, and line 190 fails; no file has changed. *)
Example main_missing_directory_example :
  let r := main (H := constants_loads) (clock := year_clock)
             (fs := input_only_fs) 5 pool_chain "data/2405.jsonl" 4 ∅
             [1; 0]%nat run_world in
  r.1 = Raise (FileNotFoundError "data/2405_AI_enhanced_Chinese.jsonl")
  ∧ slept r.2 = [5; 5; 5]
  ∧ files r.2 = files run_world.
Proof. vm_compute. repeat split; reflexivity. Qed.

(** Every line is read before the first [id] is looked up: of a record
    without [id] and a line that is no object, the one that comes first
    decides the exception. *)
Example main_reads_every_line_example :
  (main (H := constants_loads) (clock := year_clock) (fs := flat_fs) 5
     pool_chain "a.jsonl" 4 ∅ [] broken_world).1
  = Raise (KeyError "id")
  ∧ (main (H := constants_loads) (clock := year_clock) (fs := flat_fs) 5
       pool_chain "b.jsonl" 4 ∅ [] broken_world).1
    = Raise (TypeError "'int' object is not subscriptable").
Proof. vm_compute. split; reflexivity. Qed.

(** ** The further properties on the examples *)

Lemma process_single_item_missing_id_escapes_witness :
  process_single_item (H := constants_loads)
      (clock := year_clock) 5 (pool_chain 1) 1%nat "Chinese"
    pool_world
  = (Raise (KeyError "id"), pool_world).
Proof.
  apply (process_single_item_missing_id_escapes (H := constants_loads)
      (clock := year_clock) 1%nat
           "Chinese" 5 (pool_chain 1) pool_world (JStr "No identifier.")
           unrepairable_msg (JSONDecodeError "Expecting value"));
    reflexivity.
Defined.

Lemma process_single_item_missing_summary_witness :
  process_single_item (H := constants_loads) (clock := year_clock) 5
    answering_chain 0%nat "Chinese" untitled_world
  = (Ok 0%nat,
     annotated untitled_world 0%nat
       (JDict {[ "tldr" := JStr "Unexpected Error";
                 "motivation" := JStr "'summary'";
                 "method" := JStr "N/A";
                 "result" := JStr "N/A";
                 "conclusion" := JStr "N/A" ]}) [5]
       [UnexpectedError (JStr "2405.00002") (KeyError "summary")]).
Proof.
  apply (process_single_item_missing_summary (H := constants_loads)
           (clock := year_clock) 5 0%nat "Chinese" answering_chain
           untitled_world).
  - exact year_clock_range.
  - reflexivity.
Defined.

Lemma process_single_item_keeps_other_fields_witness :
  (heap (process_single_item (H := constants_loads)
      (clock := year_clock) 5 answering_chain 0%nat
           "Chinese" example_world).2 !!! 0%nat) !! "summary"
  = (heap example_world !!! 0%nat) !! "summary".
Proof.
  apply (process_single_item_keeps_other_fields (H := constants_loads)
           (clock := year_clock) 5 0%nat "Chinese" answering_chain
           example_world "summary").
  discriminate.
Defined.

Lemma process_single_item_overwrites_AI_witness :
  let w_old :=
    World (<[0%nat := <["AI" := JNull]> (heap example_world !!! 0%nat)]>
             (heap example_world))
      (slept example_world) (stderr example_world) (files example_world) in
  (process_single_item (H := constants_loads)
      (clock := year_clock) 5 answering_chain 0%nat "Chinese"
     w_old).1
  = (process_single_item (H := constants_loads)
      (clock := year_clock) 5 answering_chain 0%nat
       "Chinese" example_world).1
  ∧ ((process_single_item (H := constants_loads)
      (clock := year_clock) 5 answering_chain 0%nat
        "Chinese" example_world).1 = Ok 0%nat →
     heap (process_single_item (H := constants_loads)
         (clock := year_clock) 5 answering_chain 0%nat
             "Chinese" w_old).2 !!! 0%nat
     = heap (process_single_item (H := constants_loads)
         (clock := year_clock) 5 answering_chain 0%nat
               "Chinese" example_world).2 !!! 0%nat).
Proof.
  apply (process_single_item_overwrites_AI (H := constants_loads)
           (clock := year_clock) 5 0%nat "Chinese" answering_chain
           example_world JNull).
Defined.

Lemma process_single_item_failure_sleeps_once_witness :
  slept (process_single_item (H := constants_loads) (clock := year_clock) 5
           (failing_chain (OtherException "Connection error.")) 0%nat
           "Chinese" example_world).2
  = slept example_world ++ [5].
Proof.
  apply (process_single_item_failure_sleeps_once (H := constants_loads)
           (clock := year_clock) 5
           (failing_chain (OtherException "Connection error."))
           0%nat "Chinese" example_world _ (JStr "We study pacing.")
           (OtherException "Connection error."));
    reflexivity.
Defined.

Lemma extract_json_str_payload_witness :
  PyStr.contains marker repairable_msg = true
  ∧ extract_json_str repairable_msg = "{}".
Proof.
  apply (extract_json_str_payload "" "  " "{}" "  " ". Received error");
    try reflexivity.
  discriminate.
Defined.

Lemma escape_backslashes_app_witness :
  escape_backslashes "{}" = "{}".
Proof.
  apply (proj2 (proj2 (escape_backslashes_app "{}" ""))). reflexivity.
Defined.

Lemma duplicates_distinct_keys :
  NoDup (duplicates_key <$> [0; 2]%nat).
Proof. apply (bool_decide_unpack _). reflexivity. Defined.

Lemma deduplicate_distinct_ids_witness :
  deduplicate [0; 2]%nat duplicates_world = (Ok [0; 2]%nat, duplicates_world).
Proof.
  apply (deduplicate_distinct_ids duplicates_key [0; 2]%nat duplicates_world).
  - intros item Hitem.
    apply elem_of_cons in Hitem as [-> | Hitem]; [reflexivity |].
    apply list_elem_of_singleton in Hitem as ->. reflexivity.
  - exact duplicates_distinct_keys.
Defined.

Lemma deduplicate_idempotent_witness :
  ∃ unique_data,
    deduplicate [0; 1; 2]%nat duplicates_world = (Ok unique_data, duplicates_world)
    ∧ deduplicate unique_data duplicates_world
      = (Ok unique_data, duplicates_world).
Proof.
  apply (deduplicate_idempotent duplicates_key [0; 1; 2]%nat duplicates_world).
  intros item Hitem.
  apply elem_of_cons in Hitem as [-> | Hitem]; [reflexivity |].
  apply elem_of_cons in Hitem as [-> | Hitem]; [reflexivity |].
  apply list_elem_of_singleton in Hitem as ->. reflexivity.
Defined.

Lemma deduplicate_bad_id_raises_witness :
  ∃ e, deduplicate ([0%nat] ++ 1%nat :: [2%nat]) pool_world = (Raise e, pool_world)
       ∧ ((heap pool_world !!! 1%nat) !! "id" = None → e = KeyError "id")
       ∧ (is_Some ((heap pool_world !!! 1%nat) !! "id") →
          ∃ msg, e = TypeError msg).
Proof.
  apply (deduplicate_bad_id_raises (λ _, HStr "2405.00001") [0%nat] [2%nat]
           1%nat pool_world).
  - intros x Hx. apply list_elem_of_singleton in Hx as ->. reflexivity.
  - reflexivity.
Defined.

Lemma load_api_delay_nonneg_witness : 0 ≤ 7.
Proof.
  apply (load_api_delay_nonneg {[ "API_DELAY_SECONDS" := "7" ]} 7 []).
  reflexivity.
Defined.

Lemma target_file_differs_witness :
  target_file "data/2405.jsonl" "Chinese" ≠ "data/2405.jsonl"
  ∧ (String.length "data/2405.jsonl"
     < String.length (target_file "data/2405.jsonl" "Chinese"))%nat.
Proof.
  apply (target_file_differs "data/2405.jsonl" "Chinese"). reflexivity.
Defined.

Lemma main_removes_input_without_jsonl_witness :
  main (H := constants_loads) (clock := year_clock) (fs := flat_fs) 5
    pool_chain "data/2405.json" 4 ∅ [0%nat] json_world
  = (Raise (FileNotFoundError "data/2405.json"),
     World (heap json_world) (slept json_world)
       (stderr json_world ++ [RemovedExisting "data/2405.json"])
       (delete "data/2405.json" (files json_world))).
Proof.
  apply (main_removes_input_without_jsonl (H := constants_loads)
           (clock := year_clock) (fs := flat_fs) 5 pool_chain "data/2405.json"
           4 ∅ [0%nat] json_world "data/2405.json" [JDict example_record]);
    reflexivity.
Defined.

Lemma main_missing_input_witness :
  let environ : gmap string string := ∅ in
  let target :=
    target_file "data/2406.jsonl" (default "Chinese" (environ !! "LANGUAGE")) in
  let r := main (H := constants_loads) (clock := year_clock) (fs := flat_fs) 5
             pool_chain "data/2406.jsonl" 4 environ [0%nat] run_world in
  r.1 = Raise (open_error (fs := flat_fs) "data/2406.jsonl")
  ∧ path_exists (fs := flat_fs) target r.2 = false
  ∧ slept r.2 = slept run_world
  ∧ heap r.2 = heap run_world.
Proof.
  intros environ.
  apply (main_missing_input (H := constants_loads) (clock := year_clock)
           (fs := flat_fs) 5 pool_chain "data/2406.jsonl" 4 environ [0%nat]
           run_world).
  vm_compute. reflexivity.
Defined.

Lemma main_touches_only_target_witness :
  files (main (H := constants_loads) (clock := year_clock) (fs := flat_fs) 5
           pool_chain "data/2405.jsonl" 4 ∅ [1; 0]%nat run_world).2
    !! "data/2405.jsonl"
  = files run_world !! "data/2405.jsonl".
Proof.
  apply (main_touches_only_target (H := constants_loads) (clock := year_clock)
           (fs := flat_fs) 5 pool_chain "data/2405.jsonl" 4 ∅ [1; 0]%nat
           run_world "data/2405.jsonl").
  vm_compute. discriminate.
Defined.

Lemma run_lines_have_ids (v : json) :
  v ∈ run_lines →
  ∃ r id k, v = JDict r ∧ r !! "id" = Some id ∧ hash_key id = Ok k.
Proof.
  intros Hv.
  apply elem_of_cons in Hv as [-> | Hv];
    [by eexists _, (JStr "2405.00001"), _ |].
  apply elem_of_cons in Hv as [-> | Hv];
    [by eexists _, (JStr "2405.00001"), _ |].
  apply list_elem_of_singleton in Hv as ->.
  by eexists _, (JStr "2405.00003"), _.
Defined.

Lemma main_output_annotated_witness :
  let environ : gmap string string := ∅ in
  let language := default "Chinese" (environ !! "LANGUAGE") in
  let target := target_file "data/2405.jsonl" language in
  ∃ (data unique_data : list loc) (w1 : world),
    read_jsonl (fs := flat_fs) "data/2405.jsonl"
      (remove_if_exists (fs := flat_fs) target run_world).2
    = (Ok (PObj <$> data), w1)
    ∧ deduplicate data w1 = (Ok unique_data, w1)
    ∧ ∀ order, order ≡ₚ seq 0 (length unique_data) →
        ∃ w2 out,
          main (H := constants_loads) (clock := year_clock) (fs := flat_fs) 5
            pool_chain "data/2405.jsonl" 4 environ order run_world
          = (Ok (), w2)
          ∧ files w2 !! "data/2405.jsonl" = Some run_lines
          ∧ files w2 !! "data/2405_AI_enhanced_Chinese.jsonl" = Some out
          ∧ length out = length unique_data
          ∧ ∀ i l, unique_data !! i = Some l →
              ∃ r, out !! i = Some (JDict r)
                   ∧ JDict (heap w1 !!! l) ∈ run_lines
                   ∧ is_Some (r !! "AI")
                   ∧ ∀ k, k ≠ "AI" → r !! k = (heap w1 !!! l) !! k.
Proof.
  intros environ.
  apply (main_output_annotated (H := constants_loads) (clock := year_clock)
           (fs := flat_fs) 5 year_clock_range pool_chain
           "data/2405.jsonl" 4 environ run_world "data/2405.jsonl"
           "data/2405_AI_enhanced_Chinese.jsonl" run_lines).
  - lia.
  - reflexivity.
  - vm_compute. reflexivity.
  - discriminate.
  - vm_compute. reflexivity.
  - exact run_lines_have_ids.
Defined.

Lemma process_all_items_sleep_budget_witness :
  ∃ zs,
    slept (process_all_items (H := constants_loads)
        (clock := year_clock) 5 pool_chain [0; 1; 2]%nat
             "deepseek-chat" "Chinese" 4 [2; 0; 1]%nat pool_world).2
    = slept pool_world ++ zs
    ∧ Forall (eq 5) zs
    ∧ (length zs ≤ 2 * length [0; 1; 2]%nat)%nat
    ∧ (have_ids [0; 1; 2]%nat (heap pool_world) →
       (length [0; 1; 2]%nat ≤ length zs)%nat).
Proof.
  apply (process_all_items_sleep_budget (H := constants_loads)
           (clock := year_clock) 5 ltac:(lia) year_clock_room
           pool_chain [0; 1; 2]%nat "Chinese" "deepseek-chat" 4 [2; 0; 1]%nat
           pool_world).
  - lia.
  - exact pool_order_permutation.
Defined.

Lemma pool_identity_permutation : [0; 1; 2]%nat ≡ₚ seq 0 (length [0; 1; 2]%nat).
Proof. reflexivity. Defined.

Lemma process_all_items_same_output_witness :
  ∃ w1 w2,
    process_all_items (H := constants_loads)
        (clock := year_clock) 5 pool_chain [0; 1; 2]%nat
      "deepseek-chat" "Chinese" 4 [2; 0; 1]%nat pool_world
    = (Ok (Some <$> [0; 1; 2]%nat), w1)
    ∧ process_all_items (H := constants_loads)
        (clock := year_clock) 5 pool_chain [0; 1; 2]%nat
        "deepseek-chat" "Chinese" 4 [0; 1; 2]%nat pool_world
      = (Ok (Some <$> [0; 1; 2]%nat), w2)
    ∧ dump_slot (heap w1) <$> (Some <$> [0; 1; 2]%nat)
      = dump_slot (heap w2) <$> (Some <$> [0; 1; 2]%nat).
Proof.
  apply (process_all_items_same_output (H := constants_loads)
      (clock := year_clock) 5 pool_chain
           [0; 1; 2]%nat "Chinese" "deepseek-chat" 4 [2; 0; 1]%nat
           [0; 1; 2]%nat pool_world).
  - lia.
  - exact pool_data_NoDup.
  - exact pool_order_permutation.
  - exact pool_identity_permutation.
Defined.
